(** * bredis: a record mapper over a Redis hash store

    Shallow embedding of [bredis/orm/attributes.py], [bredis/orm/base.py]
    and [bredis/orm/managers.py] and the properties of the typed
    attributes, the record life cycle, the mutex and the batch manager.

    Conventions of the embedding
    - A Python value is a [pyval]; a computation that may raise is a
      [result]; code that talks to Redis threads a [world] (key space,
      clock, log of the commands issued) through the state-and-error
      monad [M].
    - An attribute access [getattr(instance, k)] on a declared field
      calls the descriptor's [__get__] with the instance and its class;
      the descriptors declare [__get__(self, instance)], one parameter
      short, so the access raises [TypeError]. An assignment
      [setattr(instance, k, v)] and an explicit call
      [att.__set__(instance, v)] run the body of [__set__].
    - The private slot ['_' + name] of a field lives in the instance
      dictionary, as does [_id].
    - Local time is UTC.
    - Python 2 semantics: [except TypeError, ValueError:] catches
      [TypeError] only and binds it to the name [ValueError]. *)

From Stdlib Require Import ZArith NArith Bool List Ascii String.
From Stdlib Require Import Decimal DecimalString DecimalN DecimalPos DecimalZ.
From Stdlib Require Import SpecFloat.
From stdpp Require Import base option list gmap strings fin_maps.

#[local] Open Scope Z_scope.
#[local] Open Scope string_scope.

(** ** Exceptions and results *)

Inductive exn : Type :=
| TypeError
| ValueError
| AttributeError
| UnicodeError
| OverflowError
| MissingID
| BadKeyError
| ResponseError.

Inductive result (A : Type) : Type :=
| Ok (a : A)
| Raise (e : exn).
Arguments Ok {A} a.
Arguments Raise {A} e.

Definition rbind {A B} (r : result A) (k : A -> result B) : result B :=
  match r with
  | Ok a => k a
  | Raise e => Raise e
  end.

Definition raises {A} (r : result A) : Prop := exists e, r = Raise e.

(** ** Text: whitespace, decimal digits *)

Module Text.

(** The characters [str.strip()] removes: space, \t, \n, \v, \f, \r. *)
Definition is_space (c : ascii) : bool :=
  let n := N_of_ascii c in
  (n =? 32)%N || ((9 <=? n)%N && (n <=? 13)%N).

Definition is_empty (s : string) : bool :=
  match s with
  | EmptyString => true
  | String _ _ => false
  end.

Fixpoint lstrip (s : string) : string :=
  match s with
  | EmptyString => EmptyString
  | String c r => if is_space c then lstrip r else s
  end.

Fixpoint rstrip (s : string) : string :=
  match s with
  | EmptyString => EmptyString
  | String c r =>
      let r' := rstrip r in
      if is_space c && is_empty r' then EmptyString else String c r'
  end.

Definition strip (s : string) : string := rstrip (lstrip s).

Fixpoint all_chars (p : ascii -> bool) (s : string) : bool :=
  match s with
  | EmptyString => true
  | String c r => p c && all_chars p r
  end.

Definition is_digit (c : ascii) : bool :=
  let n := N_of_ascii c in (48 <=? n)%N && (n <=? 57)%N.

Definition digit_val (c : ascii) : option N :=
  if is_digit c then Some (N_of_ascii c - 48)%N else None.

(** The number written by a run of decimal digits, continuing from
    [acc]; leading zeros are accepted, as Python does. *)
Fixpoint digits_val (acc : N) (s : string) : option N :=
  match s with
  | EmptyString => Some acc
  | String c r =>
      match digit_val c with
      | Some d => digits_val (10 * acc + d)%N r
      | None => None
      end
  end.

(** A non-empty run of decimal digits, read as a number. *)
Definition nat_of_digits (s : string) : option N :=
  if is_empty s then None else digits_val 0 s.

Definition digits_of_N (n : N) : string :=
  NilEmpty.string_of_uint (N.to_uint n).

(** [k] digits of [n], most significant first, padded with zeros. *)
Fixpoint fixed_digits (k : nat) (n : N) : string :=
  match k with
  | O => EmptyString
  | S k' =>
      fixed_digits k' (n / 10)%N ++
      String (ascii_of_N (48 + n mod 10)%N) EmptyString
  end.

Definition digits (s : string) : Prop := all_chars is_digit s = true.
Definition spaceless (s : string) : Prop :=
  all_chars (fun c => negb (is_space c)) s = true.

(** [int(s)] for a byte or unicode string, base 10. *)
Definition int_of_str (s : string) : result Z :=
  match strip s with
  | String "-" r =>
      match nat_of_digits r with
      | Some n => Ok (- Z.of_N n)
      | None => Raise ValueError
      end
  | String "+" r =>
      match nat_of_digits r with
      | Some n => Ok (Z.of_N n)
      | None => Raise ValueError
      end
  | t =>
      match nat_of_digits t with
      | Some n => Ok (Z.of_N n)
      | None => Raise ValueError
      end
  end.

(** [unicode(n)] / [str(n)] for an int or long. *)
Definition str_of_int (n : Z) : string :=
  match n with
  | Z0 => "0"
  | Zpos p => digits_of_N (Npos p)
  | Zneg p => String "-" (digits_of_N (Npos p))
  end.

End Text.


(** ** Floats: binary64 values, [float(s)], ["%f" % x] and [str(x)] *)

Module PyFloat.

Definition prec : Z := 53.
Definition emax : Z := 1024.

Definition add : spec_float -> spec_float -> spec_float := SFadd prec emax.
Definition ltb : spec_float -> spec_float -> bool := SFltb.
Definition eqb : spec_float -> spec_float -> bool := SFeqb.

(** The float nearest to an integer, ties to even. *)
Definition of_Z (n : Z) : spec_float := binary_normalize prec emax n 0 false.

(** The float nearest to [(-1)^neg * m * 10^e10], ties to even. *)
Definition of_decimal (neg : bool) (m : N) (e10 : Z) : spec_float :=
  match m with
  | N0 => S754_zero neg
  | Npos p =>
      if (0 <=? e10)%Z
      then binary_round prec emax neg (p * Z.to_pos (10 ^ e10)) 0
      else SFdiv prec emax (S754_finite neg p 0)
                           (S754_finite false (Z.to_pos (10 ^ (- e10))) 0)
  end.

Definition one : spec_float := of_Z 1.
Definition half : spec_float := of_decimal false 5 (-1).

(** [num / den] rounded to the nearest integer, ties to even ([den > 0]). *)
Definition div_half_even (num den : Z) : Z :=
  let q := num / den in
  match (2 * (num mod den)) ?= den with
  | Lt => q
  | Gt => q + 1
  | Eq => if Z.even q then q else q + 1
  end.

(** [|x| * 10^k] rounded to the nearest integer, for a finite [x = m * 2^e]. *)
Definition scaled (k : Z) (m : positive) (e : Z) : N :=
  let num := Zpos m * 2 ^ Z.max e 0 * 10 ^ Z.max k 0 in
  let den := 2 ^ Z.max (- e) 0 * 10 ^ Z.max (- k) 0 in
  Z.to_N (div_half_even num den).

Definition sign_str (neg : bool) : string := if neg then "-" else "".

(** The text [D.FFFFFF] of [n] millionths. *)
Definition fixed_point (n : N) : string :=
  Text.digits_of_N (n / 1000000)%N ++
  String "." (Text.fixed_digits 6 (n mod 1000000)%N).

(** ["%f" % x]: six digits after the point. *)
Definition format_f (x : spec_float) : string :=
  match x with
  | S754_nan => "nan"
  | S754_infinity s => sign_str s ++ "inf"
  | S754_zero s => sign_str s ++ "0.000000"
  | S754_finite s m e =>
      sign_str s ++ fixed_point (scaled 6 m e)
  end.

(** The float nearest to [x] rounded to six decimal places. *)
Definition six_decimals (x : spec_float) : spec_float :=
  match x with
  | S754_finite s m e => of_decimal s (scaled 6 m e) (-6)
  | _ => x
  end.

Definition lower (c : ascii) : ascii :=
  let n := N_of_ascii c in
  if (65 <=? n)%N && (n <=? 90)%N then ascii_of_N (n + 32) else c.

Fixpoint lower_str (s : string) : string :=
  match s with
  | EmptyString => EmptyString
  | String c r => String (lower c) (lower_str r)
  end.

(** The text before the first character satisfying [p] and, when there
    is one, the text after it. *)
Fixpoint split_at (p : ascii -> bool) (s : string) : string * option string :=
  match s with
  | EmptyString => (EmptyString, None)
  | String c r =>
      if p c then (EmptyString, Some r)
      else let '(a, b) := split_at p r in (String c a, b)
  end.

Definition is_dot (c : ascii) : bool := (N_of_ascii c =? 46)%N.
Definition is_e (c : ascii) : bool :=
  (N_of_ascii c =? 101)%N || (N_of_ascii c =? 69)%N.

Definition exponent_of_str (s : string) : option Z :=
  match s with
  | String "-" r => option_map (fun n => - Z.of_N n) (Text.nat_of_digits r)
  | String "+" r => option_map Z.of_N (Text.nat_of_digits r)
  | _ => option_map Z.of_N (Text.nat_of_digits s)
  end.

(** The text of a float after its sign: [inf], [infinity], [nan], or
    digits with an optional point and an optional exponent. *)
Definition of_str_unsigned (neg : bool) (body : string) : result spec_float :=
  let lb := lower_str body in
  if String.eqb lb "inf" || String.eqb lb "infinity" then Ok (S754_infinity neg)
  else if String.eqb lb "nan" then Ok S754_nan
  else
    let '(mant, ex) := split_at is_e body in
    let '(ip, fp) := split_at is_dot mant in
    let fp := match fp with Some f => f | None => EmptyString end in
    if Text.is_empty (ip ++ fp) then Raise ValueError
    else
      match Text.digits_val 0 (ip ++ fp), ex with
      | Some m, None => Ok (of_decimal neg m (- Z.of_nat (String.length fp)))
      | Some m, Some e =>
          match exponent_of_str e with
          | Some k => Ok (of_decimal neg m (k - Z.of_nat (String.length fp)))
          | None => Raise ValueError
          end
      | None, _ => Raise ValueError
      end.

(** [float(s)] for a string. *)
Definition of_str (s : string) : result spec_float :=
  match Text.strip s with
  | String "-" r => of_str_unsigned true r
  | String "+" r => of_str_unsigned false r
  | t => of_str_unsigned false t
  end.

(** [int(x)] for a float: truncation toward zero. *)
Definition trunc (x : spec_float) : result Z :=
  match x with
  | S754_nan => Raise ValueError
  | S754_infinity _ => Raise OverflowError
  | S754_zero _ => Ok 0
  | S754_finite s m e =>
      let a := if (0 <=? e)%Z then Zpos m * 2 ^ e else Zpos m / 2 ^ (- e) in
      Ok (if s then - a else a)
  end.

(** [float(n)] for an int or long. *)
Definition of_int (n : Z) : result spec_float :=
  match of_Z n with
  | S754_infinity _ => Raise OverflowError
  | x => Ok x
  end.

(** [str(x)] for a float: twelve significant digits, trailing zeros
    dropped, exponent form when the decimal exponent is below -4 or
    above 10, and [.0] added to a result that looks like an integer. *)
Definition ndigits10 (n : Z) : Z :=
  Z.of_nat (String.length (Text.digits_of_N (Z.to_N n))).

(** The decimal exponent of [num / den]: the [x] with
    [10^x <= num / den < 10^(x+1)]. *)
Definition log10_floor (num den : Z) : Z :=
  let d := ndigits10 num - ndigits10 den in
  if (den * 10 ^ Z.max d 0 <=? num * 10 ^ Z.max (- d) 0)%Z then d else d - 1.

Fixpoint rstrip_zeros (s : string) : string :=
  match s with
  | EmptyString => EmptyString
  | String c r =>
      let r' := rstrip_zeros r in
      if (N_of_ascii c =? 48)%N && Text.is_empty r' then EmptyString
      else String c r'
  end.

Fixpoint zeros (k : nat) : string :=
  match k with
  | O => EmptyString
  | S k' => String "0" (zeros k')
  end.

Definition take (k : nat) (s : string) : string := String.substring 0 k s.
Definition drop (k : nat) (s : string) : string :=
  String.substring k (String.length s - k) s.

Definition str_finite (m : positive) (e : Z) : string :=
  let num := Zpos m * 2 ^ Z.max e 0 in
  let den := 2 ^ Z.max (- e) 0 in
  let x0 := log10_floor num den in
  let d0 := div_half_even (num * 10 ^ Z.max (11 - x0) 0)
                          (den * 10 ^ Z.max (x0 - 11) 0) in
  let '(d, x) := if (d0 =? 10 ^ 12)%Z then (10 ^ 11, x0 + 1) else (d0, x0) in
  let ds := rstrip_zeros (Text.digits_of_N (Z.to_N d)) in
  if (x <? -4)%Z || (11 <=? x)%Z then
    let frac := drop 1 ds in
    take 1 ds ++ (if Text.is_empty frac then "" else "." ++ frac) ++ "e" ++
    (if (x <? 0)%Z then "-" else "+") ++
    (if (Z.abs x <? 10)%Z then "0" else "") ++ Text.digits_of_N (Z.to_N (Z.abs x))
  else if (0 <=? x)%Z then
    let k := S (Z.to_nat x) in
    let frac := drop k ds in
    take k (ds ++ zeros k) ++ "." ++ (if Text.is_empty frac then "0" else frac)
  else
    "0." ++ zeros (Z.to_nat (- x - 1)) ++ ds.

Definition str (x : spec_float) : string :=
  match x with
  | S754_nan => "nan"
  | S754_infinity s => sign_str s ++ "inf"
  | S754_zero s => sign_str s ++ "0.0"
  | S754_finite s m e => sign_str s ++ str_finite m e
  end.

End PyFloat.

(** ** Dates and times

    Local time is taken to be UTC, a zone at offset zero without
    daylight saving, so a [datetime] is its whole epoch second and its
    microsecond, and a [date] is its day number since 1970-01-01. In a
    zone with daylight-saving transitions a local time inside a gap is
    moved by [time.mktime]; such zones are outside the model. *)

Module Calendar.

Record datetime : Type := { dt_epoch : Z; dt_usec : Z }.
Record date : Type := { d_days : Z }.

(** 0001-01-01 00:00:00 and 9999-12-31 23:59:59. *)
Definition min_epoch : Z := -62135596800.
Definition max_epoch : Z := 253402300799.

Definition in_range (n : Z) : bool := (min_epoch <=? n)%Z && (n <=? max_epoch)%Z.

(** [datetime.fromtimestamp(n)] *)
Definition datetime_fromtimestamp (n : Z) : result datetime :=
  if in_range n then Ok {| dt_epoch := n; dt_usec := 0 |} else Raise ValueError.

(** [date.fromtimestamp(n)] *)
Definition date_fromtimestamp (n : Z) : result date :=
  if in_range n then Ok {| d_days := n / 86400 |} else Raise ValueError.

(** 1900-01-01, 0100-01-01 and 0069-01-01, each at 00:00:00. *)
Definition year_1900 : Z := -2208988800.
Definition year_100 : Z := -59011459200.
Definition year_69 : Z := -59989680000.

(** [int(time.mktime(t))] for the time tuple [t] of the local time that
    is [local] seconds from 1970-01-01 00:00:00. A year from 1900 on is
    taken as it is. A year below 100 is read as a two-digit year
    ([time.accept2dyear] is true unless the process is told otherwise):
    69 to 99 stand for 1969 to 1999, which is 693960 days later, and 1
    to 68 for 2001 to 2068, which is 730485 days later. The years 100
    to 1899 are rejected. With local time UTC the C function then
    returns the seconds as they are; its result fits a 64-bit [time_t]
    for every year up to 9999. *)
Definition mktime (local : Z) : result Z :=
  if (year_1900 <=? local)%Z then Ok local
  else if (year_100 <=? local)%Z then Raise ValueError
  else if (year_69 <=? local)%Z then Ok (local + 693960 * 86400)
  else Ok (local + 730485 * 86400).

(** [int(time.mktime(d.timetuple()))]; the time tuple has no
    microsecond, and that of a date is at 00:00:00. *)
Definition datetime_mktime (d : datetime) : result Z := mktime (dt_epoch d).
Definition date_mktime (d : date) : result Z := mktime (86400 * d_days d).

(** [datetime.now()] at [us] microseconds after the epoch. *)
Definition datetime_of_clock (us : Z) : datetime :=
  {| dt_epoch := us / 1000000; dt_usec := us mod 1000000 |}.

(** Year, month and day of a day number (proleptic Gregorian). *)
Definition civil_of_days (days : Z) : Z * Z * Z :=
  let z := days + 719468 in
  let era := z / 146097 in
  let doe := z - era * 146097 in
  let yoe := (doe - doe / 1460 + doe / 36524 - doe / 146096) / 365 in
  let doy := doe - (365 * yoe + yoe / 4 - yoe / 100) in
  let mp := (5 * doy + 2) / 153 in
  let d := doy - (153 * mp + 2) / 5 + 1 in
  let m := if (mp <? 10)%Z then mp + 3 else mp - 9 in
  let y := yoe + era * 400 + (if (m <=? 2)%Z then 1 else 0) in
  (y, m, d).

Definition pad (k : nat) (n : Z) : string := Text.fixed_digits k (Z.to_N n).

Definition date_str_of_days (days : Z) : string :=
  let '(y, m, d) := civil_of_days days in
  pad 4 y ++ "-" ++ pad 2 m ++ "-" ++ pad 2 d.

(** [str(d)] for a date. *)
Definition date_str (d : date) : string := date_str_of_days (d_days d).

(** [str(d)] for a datetime. *)
Definition datetime_str (d : datetime) : string :=
  let s := dt_epoch d mod 86400 in
  date_str_of_days (dt_epoch d / 86400) ++ " " ++
  pad 2 (s / 3600) ++ ":" ++ pad 2 (s mod 3600 / 60) ++ ":" ++ pad 2 (s mod 60) ++
  (if (dt_usec d =? 0)%Z then "" else "." ++ pad 6 (dt_usec d)).

End Calendar.

(** ** Python values *)

Inductive pyval : Type :=
| VNone
| VBool (b : bool)
| VInt (n : Z)
| VFloat (x : spec_float)
| VStr (s : string)
| VUnicode (s : string)
| VDatetime (d : Calendar.datetime)
| VDate (d : Calendar.date).

(** A byte string holds UTF-8 text, and a unicode object is kept as its
    UTF-8 encoding: [s.decode('utf-8')] turns [VStr s] into [VUnicode s]. *)

Definition is_none (v : pyval) : bool :=
  match v with VNone => true | _ => false end.

(** The truth value of [v] in a condition. *)
Definition truthy (v : pyval) : bool :=
  match v with
  | VNone => false
  | VBool b => b
  | VInt n => negb (n =? 0)%Z
  | VFloat (S754_zero _) => false
  | VFloat _ => true
  | VStr s | VUnicode s => negb (Text.is_empty s)
  | VDatetime _ | VDate _ => true
  end.

Definition is_ascii (s : string) : bool :=
  Text.all_chars (fun c => (N_of_ascii c <? 128)%N) s.

(** [unicode(v)]: a byte string is decoded as ASCII. *)
Definition py_unicode (v : pyval) : result string :=
  match v with
  | VNone => Ok "None"
  | VBool b => Ok (if b then "True" else "False")
  | VInt n => Ok (Text.str_of_int n)
  | VFloat x => Ok (PyFloat.str x)
  | VStr s => if is_ascii s then Ok s else Raise UnicodeError
  | VUnicode s => Ok s
  | VDatetime d => Ok (Calendar.datetime_str d)
  | VDate d => Ok (Calendar.date_str d)
  end.

(** [int(v)] *)
Definition py_int (v : pyval) : result Z :=
  match v with
  | VBool b => Ok (if b then 1 else 0)
  | VInt n => Ok n
  | VFloat x => PyFloat.trunc x
  | VStr s | VUnicode s => Text.int_of_str s
  | VNone | VDatetime _ | VDate _ => Raise TypeError
  end.

(** [float(v)] *)
Definition py_float (v : pyval) : result spec_float :=
  match v with
  | VBool b => Ok (PyFloat.of_Z (if b then 1 else 0))
  | VInt n => PyFloat.of_int n
  | VFloat x => Ok x
  | VStr s | VUnicode s => PyFloat.of_str s
  | VNone | VDatetime _ | VDate _ => Raise TypeError
  end.

(** ["%f" % v] *)
Definition format_percent_f (v : pyval) : result string :=
  match v with
  | VBool b => Ok (PyFloat.format_f (PyFloat.of_Z (if b then 1 else 0)))
  | VInt n => rbind (PyFloat.of_int n) (fun x => Ok (PyFloat.format_f x))
  | VFloat x => Ok (PyFloat.format_f x)
  | VNone | VStr _ | VUnicode _ | VDatetime _ | VDate _ => Raise TypeError
  end.

(** ** Attribute descriptors ([attributes.py])

    A descriptor is a record of the constructor's options together with
    the class it was built from; a method call on it dispatches on the
    class, subclasses falling back to the method they inherit. *)

Definition errors : Type := list (string * string).

Inductive field_class : Type :=
| CAttribute
| CCharField (max_length : nat)
| CBooleanField
| CIntegerField
| CFloatField
| CDateTimeField (auto_now auto_now_add : bool)
| CDateField (auto_now auto_now_add : bool)
| CCounter.

Record attribute : Type := {
  name : string;
  required : bool;
  default : pyval;
  validator : option (string -> pyval -> errors);
  class_of : field_class
}.

(** [try: body except TypeError, ValueError: handler]; in Python 2 the
    clause names the class caught and the variable the exception is
    bound to, so only [TypeError] is caught. *)
Definition try_except_TypeError {A} (body : result A) (handler : result A) : result A :=
  match body with
  | Raise TypeError => handler
  | r => r
  end.

(** [try: body except UnicodeError: handler] *)
Definition try_except_UnicodeError {A} (body : result A) (handler : result A) : result A :=
  match body with
  | Raise UnicodeError => handler
  | r => r
  end.

(** [value.decode('utf-8')] *)
Definition decode_utf8 (value : pyval) : result pyval :=
  match value with
  | VStr s => Ok (VUnicode s)
  | VUnicode s => if is_ascii s then Ok (VUnicode s) else Raise UnicodeError
  | _ => Raise AttributeError
  end.

Module Attribute.

Definition typecast_for_read (value : pyval) : result pyval :=
  match value with
  | VUnicode _ => Ok value
  | _ => decode_utf8 value
  end.

Definition typecast_for_storage (value : pyval) : result pyval :=
  try_except_UnicodeError
    (rbind (py_unicode value) (fun s => Ok (VUnicode s)))
    (decode_utf8 value).

(** [isinstance(value, basestring)] *)
Definition acceptable (value : pyval) : bool :=
  match value with
  | VStr _ | VUnicode _ => true
  | _ => false
  end.

End Attribute.

Module BooleanField.

Definition typecast_for_read (value : pyval) : result pyval :=
  rbind (py_int value) (fun n => Ok (VBool (negb (n =? 0)%Z))).

Definition typecast_for_storage (value : pyval) : result pyval :=
  Ok (VStr (if truthy value then "1" else "0")).

Definition acceptable (value : pyval) : bool :=
  match value with
  | VBool _ => true
  | _ => false
  end.

End BooleanField.

Module IntegerField.

Definition typecast_for_read (value : pyval) : result pyval :=
  rbind (py_int value) (fun n => Ok (VInt n)).

Definition typecast_for_storage (value : pyval) : result pyval :=
  if is_none value then Ok (VStr "0")
  else rbind (py_unicode value) (fun s => Ok (VUnicode s)).

(** [isinstance(value, (int, long))]; [bool] is a subclass of [int]. *)
Definition acceptable (value : pyval) : bool :=
  match value with
  | VInt _ | VBool _ => true
  | _ => false
  end.

End IntegerField.

Module FloatField.

Definition typecast_for_read (value : pyval) : result pyval :=
  rbind (py_float value) (fun x => Ok (VFloat x)).

Definition typecast_for_storage (value : pyval) : result pyval :=
  if is_none value then Ok (VStr "0")
  else rbind (format_percent_f value) (fun s => Ok (VStr s)).

Definition acceptable (value : pyval) : bool :=
  match value with
  | VFloat _ => true
  | _ => false
  end.

End FloatField.

Module DateTimeField.

Definition typecast_for_read (value : pyval) : result pyval :=
  try_except_TypeError
    (rbind (py_int value) (fun n =>
     rbind (Calendar.datetime_fromtimestamp n) (fun d => Ok (VDatetime d))))
    (Ok VNone).

(** [isinstance(value, datetime)] *)
Definition acceptable (value : pyval) : bool :=
  match value with
  | VDatetime _ => true
  | _ => false
  end.

Definition typecast_for_storage (value : pyval) : result pyval :=
  if negb (acceptable value) then Raise TypeError
  else if is_none value then Ok VNone
  else
    match value with
    | VDatetime d =>
        rbind (Calendar.datetime_mktime d) (fun t => Ok (VUnicode (Text.str_of_int t)))
    | _ => Raise TypeError
    end.

End DateTimeField.

Module DateField.

Definition typecast_for_read (value : pyval) : result pyval :=
  try_except_TypeError
    (rbind (py_int value) (fun n =>
     rbind (Calendar.date_fromtimestamp n) (fun d => Ok (VDate d))))
    (Ok VNone).

(** [isinstance(value, date)]; [datetime] is a subclass of [date]. *)
Definition acceptable (value : pyval) : bool :=
  match value with
  | VDate _ | VDatetime _ => true
  | _ => false
  end.

Definition typecast_for_storage (value : pyval) : result pyval :=
  if negb (acceptable value) then Raise TypeError
  else if is_none value then Ok VNone
  else
    match value with
    | VDate d =>
        rbind (Calendar.date_mktime d) (fun t => Ok (VUnicode (Text.str_of_int t)))
    | VDatetime d =>
        rbind (Calendar.datetime_mktime d) (fun t => Ok (VUnicode (Text.str_of_int t)))
    | _ => Raise TypeError
    end.

End DateField.

(** Method resolution: [CharField] inherits both casts from [Attribute],
    [Counter] from [IntegerField]. *)
Definition typecast_for_read (a : attribute) (value : pyval) : result pyval :=
  match class_of a with
  | CAttribute | CCharField _ => Attribute.typecast_for_read value
  | CBooleanField => BooleanField.typecast_for_read value
  | CIntegerField | CCounter => IntegerField.typecast_for_read value
  | CFloatField => FloatField.typecast_for_read value
  | CDateTimeField _ _ => DateTimeField.typecast_for_read value
  | CDateField _ _ => DateField.typecast_for_read value
  end.

Definition typecast_for_storage (a : attribute) (value : pyval) : result pyval :=
  match class_of a with
  | CAttribute | CCharField _ => Attribute.typecast_for_storage value
  | CBooleanField => BooleanField.typecast_for_storage value
  | CIntegerField | CCounter => IntegerField.typecast_for_storage value
  | CFloatField => FloatField.typecast_for_storage value
  | CDateTimeField _ _ => DateTimeField.typecast_for_storage value
  | CDateField _ _ => DateField.typecast_for_storage value
  end.

(** [isinstance(value, self.acceptable_types())] *)
Definition acceptable_types (a : attribute) (value : pyval) : bool :=
  match class_of a with
  | CAttribute | CCharField _ => Attribute.acceptable value
  | CBooleanField => BooleanField.acceptable value
  | CIntegerField | CCounter => IntegerField.acceptable value
  | CFloatField => FloatField.acceptable value
  | CDateTimeField _ _ => DateTimeField.acceptable value
  | CDateField _ _ => DateField.acceptable value
  end.

(** The values of a field's declared type, [value_type()]. *)
Definition of_value_type (a : attribute) (value : pyval) : bool :=
  match class_of a, value with
  | (CAttribute | CCharField _), VUnicode _ => true
  | CBooleanField, VBool _ => true
  | (CIntegerField | CCounter), VInt _ => true
  | CFloatField, VFloat _ => true
  | CDateTimeField _ _, VDatetime _ => true
  | CDateField _ _, VDate _ => true
  | _, _ => false
  end.

(** The value read back after a store cast: [typecast_for_read]
    applied to the result of [typecast_for_storage]. *)
Definition read_back (a : attribute) (v : pyval) : result pyval :=
  rbind (typecast_for_storage a v) (typecast_for_read a).

(** [a == b] for two values of one type. *)
Definition same_value (a b : pyval) : Prop :=
  match a, b with
  | VFloat x, VFloat y => PyFloat.eqb x y = true
  | _, _ => a = b
  end.

Definition round_trips (a : attribute) (v : pyval) : Prop :=
  exists v', read_back a v = Ok v' /\ same_value v' v.

(** A descriptor as its constructor leaves it when only the class and
    the name are given. *)
Definition plain_field (c : field_class) (n : string) : attribute :=
  {| name := n; required := false; default := VNone; validator := None;
     class_of := c |}.

(** ** The Redis key space and its commands *)

Module Redis.

Inductive rvalue : Type :=
| RString (s : string)
| RHash (h : gmap string string).

(** The commands the mapper issues, as they reach the server. *)
Inductive command : Type :=
| HGET (key field : string)
| HMGET (key : string) (fields : list string)
| HMSET (key : string) (mapping : gmap string string)
| HINCRBY (key field : string) (amount : Z)
| DEL (key : string)
| EXISTS (key : string)
| INCR (key : string)
| SETNX (key value : string)
| GET (key : string)
| GETSET (key value : string)
| SMEMBERS (key : string)
| ZRANGEBYSCORE (key low high : string) (offset count : option Z)
| ZREVRANGEBYSCORE (key high low : string) (offset count : option Z).

(** The integer a string value stands for: canonical decimal text within
    64 bits. *)
Definition int_of_value (s : string) : option Z :=
  match Text.int_of_str s with
  | Ok n =>
      if String.eqb (Text.str_of_int n) s &&
         (- 2 ^ 63 <=? n)%Z && (n <? 2 ^ 63)%Z
      then Some n else None
  | Raise _ => None
  end.

Definition hget (ks : gmap string rvalue) (key field : string)
  : result (option string) :=
  match ks !! key with
  | None => Ok None
  | Some (RHash h) => Ok (h !! field)
  | Some (RString _) => Raise ResponseError
  end.

Definition hmget (ks : gmap string rvalue) (key : string) (fields : list string)
  : result (list (option string)) :=
  match ks !! key with
  | None => Ok ((fun _ => None) <$> fields)
  | Some (RHash h) => Ok ((fun f => h !! f) <$> fields)
  | Some (RString _) => Raise ResponseError
  end.

(** The fields of [mapping] are written over those already there. *)
Definition hmset (ks : gmap string rvalue) (key : string) (mapping : gmap string string)
  : result (gmap string rvalue) :=
  match ks !! key with
  | None => Ok (<[key := RHash mapping]> ks)
  | Some (RHash h) => Ok (<[key := RHash (mapping ∪ h)]> ks)
  | Some (RString _) => Raise ResponseError
  end.

Definition del (ks : gmap string rvalue) (key : string) : gmap string rvalue :=
  delete key ks.

Definition exists_ (ks : gmap string rvalue) (key : string) : bool :=
  bool_decide (is_Some (ks !! key)).

Definition incr (ks : gmap string rvalue) (key : string)
  : result (Z * gmap string rvalue) :=
  match ks !! key with
  | None => Ok (1, <[key := RString "1"]> ks)
  | Some (RString s) =>
      match int_of_value s with
      | Some n =>
          if (n + 1 <? 2 ^ 63)%Z
          then Ok (n + 1, <[key := RString (Text.str_of_int (n + 1))]> ks)
          else Raise ResponseError
      | None => Raise ResponseError
      end
  | Some (RHash _) => Raise ResponseError
  end.

(** The increment, the value in the field and the sum must each be a
    signed 64-bit integer. *)
Definition hincrby (ks : gmap string rvalue) (key field : string) (amount : Z)
  : result (Z * gmap string rvalue) :=
  let bump (h : gmap string string) :=
    match h !! field with
    | None => Some amount
    | Some s => option_map (fun n => n + amount) (int_of_value s)
    end in
  let h :=
    match ks !! key with
    | None => Some ∅
    | Some (RHash h) => Some h
    | Some (RString _) => None
    end in
  if negb ((- 2 ^ 63 <=? amount)%Z && (amount <? 2 ^ 63)%Z) then Raise ResponseError
  else
    match h with
    | None => Raise ResponseError
    | Some h =>
        match bump h with
        | Some n =>
            if (- 2 ^ 63 <=? n)%Z && (n <? 2 ^ 63)%Z
            then Ok (n, <[key := RHash (<[field := Text.str_of_int n]> h)]> ks)
            else Raise ResponseError
        | None => Raise ResponseError
        end
    end.

(** Set [key] to [value] unless the key exists; tells whether it did set. *)
Definition setnx (ks : gmap string rvalue) (key value : string)
  : bool * gmap string rvalue :=
  match ks !! key with
  | None => (true, <[key := RString value]> ks)
  | Some _ => (false, ks)
  end.

Definition get (ks : gmap string rvalue) (key : string) : result (option string) :=
  match ks !! key with
  | None => Ok None
  | Some (RString s) => Ok (Some s)
  | Some (RHash _) => Raise ResponseError
  end.

(** Replace the value of [key] and return the one replaced. *)
Definition getset (ks : gmap string rvalue) (key value : string)
  : result (option string * gmap string rvalue) :=
  match ks !! key with
  | None => Ok (None, <[key := RString value]> ks)
  | Some (RString s) => Ok (Some s, <[key := RString value]> ks)
  | Some (RHash _) => Raise ResponseError
  end.

End Redis.

(** ** The world a call runs in

    The key space, the clock in microseconds since the epoch, whether
    the asynchronous client is installed ([is_async()]), the commands
    sent so far, oldest first, and the error log. *)

Record world : Type := {
  db : gmap string Redis.rvalue;
  clock : Z;
  async_mode : bool;
  oplog : list Redis.command;
  errlog : list string
}.

Definition set_db (ks : gmap string Redis.rvalue) (w : world) : world :=
  {| db := ks; clock := clock w; async_mode := async_mode w;
     oplog := oplog w; errlog := errlog w |}.

Definition set_clock (t : Z) (w : world) : world :=
  {| db := db w; clock := t; async_mode := async_mode w;
     oplog := oplog w; errlog := errlog w |}.

(** The command [c] goes out to the server. *)
Definition sent (c : Redis.command) (w : world) : world :=
  {| db := db w; clock := clock w; async_mode := async_mode w;
     oplog := oplog w ++ [c]; errlog := errlog w |}.

(** [time.time()] *)
Definition time_time (w : world) : spec_float :=
  PyFloat.of_decimal false (Z.to_N (clock w)) (-6).

(** [str(v)]: a unicode object is encoded as ASCII. *)
Definition py_str (v : pyval) : result string :=
  match v with
  | VStr s => Ok s
  | VUnicode s => if is_ascii s then Ok s else Raise UnicodeError
  | _ => py_unicode v
  end.

(** The bytes the client sends for a value. *)
Definition redis_encode (v : pyval) : string :=
  match v with
  | VStr s | VUnicode s => s
  | VNone => "None"
  | VBool b => if b then "True" else "False"
  | VInt n => Text.str_of_int n
  | VFloat x => PyFloat.str x
  | VDatetime d => Calendar.datetime_str d
  | VDate d => Calendar.date_str d
  end.

(** [len(v)]; a unicode object counts code points, the bytes that do not
    continue a UTF-8 sequence. *)
Fixpoint count_code_points (s : string) : nat :=
  match s with
  | EmptyString => O
  | String c r =>
      let n := N_of_ascii c in
      if (128 <=? n)%N && (n <? 192)%N then count_code_points r
      else S (count_code_points r)
  end.

Definition py_len (v : pyval) : result nat :=
  match v with
  | VStr s => Ok (String.length s)
  | VUnicode s => Ok (count_code_points s)
  | _ => Raise TypeError
  end.

(** [not u.strip()] for a unicode object [u]: every code point of it is
    white space. Besides the ASCII ones these are U+001C..U+001F, U+0085,
    U+00A0, U+1680, U+180E, U+2000..U+200A, U+2028, U+2029, U+202F,
    U+205F, U+3000. *)
Fixpoint bytes_blank (l : list N) : bool :=
  match l with
  | [] => true
  | c :: r =>
      if ((c =? 32) || ((9 <=? c) && (c <=? 13)) || ((28 <=? c) && (c <=? 31)))%N
      then bytes_blank r
      else
        match r with
        | d :: r1 =>
            if ((c =? 194) && ((d =? 133) || (d =? 160)))%N then bytes_blank r1
            else
              match r1 with
              | e :: r2 =>
                  if ((c =? 225) && (d =? 154) && (e =? 128))%N ||
                     ((c =? 225) && (d =? 160) && (e =? 142))%N ||
                     ((c =? 226) && (d =? 128) &&
                      (((128 <=? e) && (e <=? 138)) || (e =? 168) || (e =? 169) ||
                       (e =? 175)))%N ||
                     ((c =? 226) && (d =? 129) && (e =? 159))%N ||
                     ((c =? 227) && (d =? 128) && (e =? 128))%N
                  then bytes_blank r2
                  else false
              | [] => false
              end
        | [] => false
        end
  end.

Definition unicode_blank (s : string) : bool :=
  bytes_blank (N_of_ascii <$> list_ascii_of_string s).

(** [s.isdigit()] for a byte string. *)
Definition isdigit (s : string) : bool :=
  negb (Text.is_empty s) && Text.all_chars Text.is_digit s.

(** ** Record types and instances ([base.py]) *)

Record reference_field : Type := {
  ref_name : string;
  ref_required : bool;
  ref_default : pyval;
  ref_validator : option (string -> pyval -> errors);
  _attname : option string;
  _related_name : option string;
  _target_type : string
}.

(** A record type as its metaclass leaves it: the identity of the class
    object, its name, the identities of the classes its instances are
    instances of (itself and its ancestors), its key prefix, its
    attribute and reference descriptors, its counter names, and the
    errors its [validate] override appends (none for [Model.validate]).
    Two classes are one class when they have one identity, whatever
    their names. *)
Record model_class : Type := {
  class_id : N;
  __name__ : string;
  __mro__ : list N;
  _key : string;
  _attributes : gmap string attribute;
  _references : gmap string reference_field;
  _counters : list string;
  validate_hook : gmap string pyval -> errors
}.

(** An instance: its class, its dictionary (the slot [_id] and the slot
    ['_' + name] of each field that has been set) and the attribute
    [_errors], kept apart. *)
Record instance : Type := {
  __class__ : model_class;
  __dict__ : gmap string pyval;
  _errors : option errors
}.

Definition set_dict (d : gmap string pyval) (o : instance) : instance :=
  {| __class__ := __class__ o; __dict__ := d; _errors := _errors o |}.

Definition set_errors (e : errors) (o : instance) : instance :=
  {| __class__ := __class__ o; __dict__ := __dict__ o; _errors := Some e |}.

(** Modelled from the spec: the class [Key] of [bredis/orm/key.py], a
    string whose item access appends a separator and the item:
    [<type-prefix>:<identity>], [<type-prefix>:<identity>:_lock] and
    [<type-prefix>:id]. *)
Definition Key_getitem (k item : string) : string := k ++ ":" ++ item.

(** ** The monad of a method call

    A call runs on an instance in a world; it returns or raises, and
    leaves both changed; [None] is a loop that ran out of fuel. *)

Record state : Type := { self : instance; env : world }.

Definition M (A : Type) : Type := state -> option (result A * state).

Definition ret {A} (a : A) : M A := fun s => Some (Ok a, s).
Definition raise {A} (e : exn) : M A := fun s => Some (Raise e, s).
Definition out_of_fuel {A} : M A := fun _ => None.

Definition bind {A B} (c : M A) (k : A -> M B) : M B :=
  fun s =>
    match c s with
    | None => None
    | Some (Ok a, s') => k a s'
    | Some (Raise e, s') => Some (Raise e, s')
    end.

Declare Scope M_scope.
Delimit Scope M_scope with M.
Bind Scope M_scope with M.
Notation "x <- c ;; k" := (bind c (fun x => k))
  (at level 100, c at next level, right associativity) : M_scope.
Notation "c ;;; k" := (bind c (fun _ => k))
  (at level 100, right associativity) : M_scope.
#[local] Open Scope M_scope.

Definition lift {A} (r : result A) : M A := fun s => Some (r, s).
Definition get_self : M instance := fun s => Some (Ok (self s), s).
Definition get_env : M world := fun s => Some (Ok (env s), s).
Definition put_self (o : instance) : M unit :=
  fun s => Some (Ok tt, {| self := o; env := env s |}).
Definition put_env (w : world) : M unit :=
  fun s => Some (Ok tt, {| self := self s; env := w |}).

(** [try: body finally: cleanup] *)
Definition try_finally {A} (body : M A) (cleanup : M unit) : M A :=
  fun s =>
    match body s with
    | None => None
    | Some (r, s') =>
        match cleanup s' with
        | None => None
        | Some (Ok _, s'') => Some (r, s'')
        | Some (Raise e, s'') => Some (Raise e, s'')
        end
    end.

(** A command of the synchronous client: it is sent, then answered. *)
Definition command {A} (c : Redis.command)
    (f : gmap string Redis.rvalue -> result (A * gmap string Redis.rvalue)) : M A :=
  fun s =>
    let w := sent c (env s) in
    match f (db w) with
    | Ok (a, ks) => Some (Ok a, {| self := self s; env := set_db ks w |})
    | Raise e => Some (Raise e, {| self := self s; env := w |})
    end.

Definition query {A} (c : Redis.command)
    (f : gmap string Redis.rvalue -> result A) : M A :=
  command c (fun ks => rbind (f ks) (fun a => Ok (a, ks))).

Definition db_hget (key field : string) : M (option string) :=
  query (Redis.HGET key field) (fun ks => Redis.hget ks key field).
Definition db_incr (key : string) : M Z :=
  command (Redis.INCR key) (fun ks => Redis.incr ks key).
Definition db_hincrby (key field : string) (amount : Z) : M Z :=
  command (Redis.HINCRBY key field amount) (fun ks => Redis.hincrby ks key field amount).
Definition db_exists (key : string) : M bool :=
  query (Redis.EXISTS key) (fun ks => Ok (Redis.exists_ ks key)).
Definition db_setnx (key value : string) : M bool :=
  command (Redis.SETNX key value) (fun ks => Ok (Redis.setnx ks key value)).
Definition db_get (key : string) : M (option string) :=
  query (Redis.GET key) (fun ks => Redis.get ks key).
Definition db_getset (key value : string) : M (option string) :=
  command (Redis.GETSET key value) (fun ks => Redis.getset ks key value).
Definition db_delete (key : string) : M unit :=
  command (Redis.DEL key) (fun ks => Ok (tt, Redis.del ks key)).
Definition db_hmset (key : string) (mapping : gmap string string) : M unit :=
  command (Redis.HMSET key mapping)
    (fun ks => rbind (Redis.hmset ks key mapping) (fun ks' => Ok (tt, ks'))).

(** [is_async()] *)
Definition is_async : M bool := fun s => Some (Ok (async_mode (env s)), s).

(** ** Identity and key *)


(** The property [Model.id] *)
Definition id_get : M pyval :=
  o <- get_self ;;
  match __dict__ o !! "_id" with
  | None => raise MissingID
  | Some v => ret v
  end.

(** The setter of [Model.id]: [self._id = str(val)] *)
Definition id_set (val : pyval) : M unit :=
  s <- lift (py_str val) ;;
  o <- get_self ;;
  put_self (set_dict (<["_id" := VStr s]> (__dict__ o)) o).

(** [Model.key] *)
Definition key (att : option string) : M string :=
  i <- id_get ;;
  s <- lift (py_unicode i) ;;
  o <- get_self ;;
  let k := Key_getitem (_key (__class__ o)) s in
  match att with
  | Some a => ret (Key_getitem k a)
  | None => ret k
  end.

(** ** Descriptor access *)

Definition slot (a : attribute) : string := "_" ++ name a.

(** [Attribute.__set__] *)
Definition Attribute___set__ (a : attribute) (value : pyval) : M unit :=
  o <- get_self ;;
  put_self (set_dict (<[slot a := value]> (__dict__ o)) o).

(** [Counter.__set__] *)
Definition Counter___set__ (a : attribute) (value : pyval) : M unit :=
  raise AttributeError.

(** [Counter.__init__]: a counter without a default gets [0]. *)
Definition Counter___init__ (n : string) (req : bool) (dflt : option pyval)
    (v : option (string -> pyval -> errors)) : attribute :=
  {| name := n; required := req;
     default := match dflt with
                | None | Some VNone => VInt 0
                | Some d => d
                end;
     validator := v; class_of := CCounter |}.

Definition descriptor_set (a : attribute) (value : pyval) : M unit :=
  match class_of a with
  | CCounter => Counter___set__ a value
  | _ => Attribute___set__ a value
  end.

(** The class has a field or a reference under the name [k]. *)
Definition declared (c : model_class) (k : string) : bool :=
  bool_decide (is_Some (_attributes c !! k)) ||
  bool_decide (is_Some (_references c !! k)).

(** [getattr(instance, k)]. A name the class has a field or a reference
    under is found on the class as a data descriptor, and Python calls
    its [__get__] with the instance and the class. [Attribute],
    [ReferenceField] and [Counter] declare [__get__(self, instance)],
    so the call raises [TypeError] before it runs any of the body. Any
    other name is looked up in the instance dictionary; the members of
    [Model] are not values of the model, and a name the dictionary
    lacks is taken to be no attribute at all. *)
Definition getattr (k : string) : M pyval :=
  o <- get_self ;;
  if declared (__class__ o) k then raise TypeError
  else
    match __dict__ o !! k with
    | Some v => ret v
    | None => raise AttributeError
    end.

(** [setattr(instance, k, value)] *)
Definition setattr (k : string) (value : pyval) : M unit :=
  o <- get_self ;;
  match _attributes (__class__ o) !! k with
  | Some a => descriptor_set a value
  | None => put_self (set_dict (<[k := value]> (__dict__ o)) o)
  end.

(** [getattr(instance, k, None)]: the default replaces an
    [AttributeError] only. *)
Definition getattr_or_None (k : string) : M pyval :=
  fun s =>
    match getattr k s with
    | Some (Raise AttributeError, s') => Some (Ok VNone, s')
    | r => r
    end.

(** ** Validation *)

(** [Attribute.validate]; the result is the list a
    [FieldValidationError] would carry, empty when none is raised. *)
Definition Attribute_validate (a : attribute) : M errors :=
  value <- getattr (name a) ;;
  let bad_type :=
    if truthy value && negb (acceptable_types a value)
    then [(name a, "bad type")] else [] in
  missing <- (if required a then
                if is_none value then ret [(name a, "required")]
                else
                  u <- lift (py_unicode value) ;;
                  ret (if unicode_blank u then [(name a, "required")] else [])
              else ret []) ;;
  let custom :=
    match validator a with
    | Some f => f (name a) value
    | None => []
    end in
  ret (bad_type ++ missing ++ custom)%list.

(** [CharField.validate] *)
Definition CharField_validate (a : attribute) (max_length : nat) : M errors :=
  errs <- Attribute_validate a ;;
  value <- getattr (name a) ;;
  too_long <- (if truthy value then
                 n <- lift (py_len value) ;;
                 ret (if (max_length <? n)%nat
                      then [(name a, "exceeds max length")] else [])
               else ret []) ;;
  ret (errs ++ too_long)%list.

Definition attname (r : reference_field) : string :=
  match _attname r with
  | Some n => n
  | None => ref_name r ++ "_id"
  end.

(** [ReferenceField.validate] *)
Definition ReferenceField_validate (r : reference_field) : M errors :=
  value <- getattr_or_None (attname r) ;;
  bad_type <- (if truthy value then
                 s <- lift (py_str value) ;;
                 ret (if negb (isdigit s)
                      then [(ref_name r, "bad type for reference")] else [])
               else ret []) ;;
  let missing :=
    if ref_required r && negb (truthy value)
    then [(ref_name r, "required")] else [] in
  let custom :=
    match ref_validator r with
    | Some f => f (ref_name r) value
    | None => []
    end in
  ret (bad_type ++ missing ++ custom)%list.

Definition validate (a : attribute) : M errors :=
  match class_of a with
  | CCharField max_length => CharField_validate a max_length
  | _ => Attribute_validate a
  end.

(** [self._errors.extend(e)] *)
Definition extend_errors (e : errors) : M unit :=
  o <- get_self ;;
  put_self (set_errors (match _errors o with
                        | Some e0 => e0 ++ e
                        | None => e
                        end)%list o).

(** The loop of [Model.is_valid] over the attribute descriptors. *)
Fixpoint validate_attributes (fields : list attribute) : M unit :=
  match fields with
  | [] => ret tt
  | f :: rest =>
      e <- validate f ;; extend_errors e ;;; validate_attributes rest
  end.

(** The same loop over the reference descriptors. *)
Fixpoint validate_references (fields : list reference_field) : M unit :=
  match fields with
  | [] => ret tt
  | f :: rest =>
      e <- ReferenceField_validate f ;; extend_errors e ;;; validate_references rest
  end.

(** [self.attributes.values()] and [self.attributes.iteritems()], in the
    order the dictionary yields them. *)
Definition attribute_items (c : model_class) : list (string * attribute) :=
  map_to_list (_attributes c).
Definition attribute_values (c : model_class) : list attribute :=
  snd <$> attribute_items c.
Definition reference_values (c : model_class) : list reference_field :=
  snd <$> map_to_list (_references c).

(** [self._errors] *)
Definition errors_get : M errors :=
  o <- get_self ;;
  match _errors o with
  | Some e => ret e
  | None => raise AttributeError
  end.

(** [Model.is_valid] *)
Definition is_valid : M bool :=
  o <- get_self ;;
  put_self (set_errors [] o) ;;;
  validate_attributes (attribute_values (__class__ o)) ;;;
  validate_references (reference_values (__class__ o)) ;;;
  o' <- get_self ;;
  extend_errors (validate_hook (__class__ o') (__dict__ o')) ;;;
  e <- errors_get ;;
  ret (match e with [] => true | _ => false end).

(** ** The mutex

    [Mutex.lock] is a loop around three store calls. A program point
    names the call that comes next: the [setnx] of the loop test, the
    [get] after it failed, the [getset] after an expired value was read,
    or the end of [time.sleep(0.5)]. A step is that call together with
    the tests that follow it, up to the next call. *)

Module Mutex.

(** The property [lock_timeout]: ["%f" % (time.time() + 1.0)] *)
Definition lock_timeout (w : world) : string :=
  PyFloat.format_f (PyFloat.add (time_time w) PyFloat.one).

(** [lock_has_expired(lock)]: [float(lock) < time.time()] *)
Definition lock_has_expired (lock : string) (w : world) : result bool :=
  rbind (PyFloat.of_str lock) (fun x => Ok (PyFloat.ltb x (time_time w))).

Inductive pc : Type :=
| AtSetnx
| AtGet
| AtGetset
| Sleeping (until : Z)
| Acquired.

Definition lock_step (k : string) (p : pc) (w : world) : result pc * world :=
  match p with
  | AtSetnx =>
      let w1 := sent (Redis.SETNX k (lock_timeout w)) w in
      let '(done, ks) := Redis.setnx (db w1) k (lock_timeout w) in
      (Ok (if done then Acquired else AtGet), set_db ks w1)
  | AtGet =>
      let w1 := sent (Redis.GET k) w in
      match Redis.get (db w1) k with
      | Raise e => (Raise e, w1)
      | Ok None => (Ok AtSetnx, w1)
      | Ok (Some lock) =>
          if Text.is_empty lock then (Ok AtSetnx, w1)
          else
            match lock_has_expired lock w1 with
            | Raise e => (Raise e, w1)
            | Ok false => (Ok (Sleeping (clock w1 + 500000)), w1)
            | Ok true => (Ok AtGetset, w1)
            end
      end
  | AtGetset =>
      let w1 := sent (Redis.GETSET k (lock_timeout w)) w in
      match Redis.getset (db w1) k (lock_timeout w) with
      | Raise e => (Raise e, w1)
      | Ok (None, ks) => (Ok Acquired, set_db ks w1)
      | Ok (Some lock, ks) =>
          let w2 := set_db ks w1 in
          if Text.is_empty lock then (Ok Acquired, w2)
          else
            match lock_has_expired lock w2 with
            | Raise e => (Raise e, w2)
            | Ok true => (Ok Acquired, w2)
            | Ok false => (Ok AtSetnx, w2)
            end
      end
  | Sleeping until => (Ok AtSetnx, set_clock (Z.max (clock w) until) w)
  | Acquired => (Ok Acquired, w)
  end.

(** A step of the instance's own lock: the key is [o.key('_lock')]. *)
Definition step (p : pc) : M pc :=
  k <- key (Some "_lock") ;;
  fun s =>
    let '(r, w) := lock_step k p (env s) in
    Some (r, {| self := self s; env := w |}).

Fixpoint run (fuel : nat) (p : pc) : M unit :=
  match p with
  | Acquired => ret tt
  | _ =>
      match fuel with
      | O => out_of_fuel
      | S fuel' => p' <- step p ;; run fuel' p'
      end
  end.

(** [Mutex.lock] *)
Definition lock (fuel : nat) : M unit := run fuel AtSetnx.

(** [Mutex.unlock] *)
Definition unlock : M unit :=
  k <- key (Some "_lock") ;; db_delete k.

End Mutex.

(** ** Saving *)

(** [Model._initialize_id] *)
Definition _initialize_id : M unit :=
  o <- get_self ;;
  n <- db_incr (Key_getitem (_key (__class__ o)) "id") ;;
  id_set (VStr (Text.str_of_int n)).

(** [datetime.now()] *)
Definition datetime_now : M pyval :=
  w <- get_env ;; ret (VDatetime (Calendar.datetime_of_clock (clock w))).

(** The statements of [_write] and [_get_data_for_storage] that refresh
    a date or datetime field: the two [isinstance] branches have the
    same body. *)
Definition refresh (_new : bool) (k : string) (v : attribute) : M unit :=
  match class_of v with
  | CDateTimeField auto_now auto_now_add
  | CDateField auto_now auto_now_add =>
      (if auto_now then now <- datetime_now ;; setattr k now else ret tt) ;;;
      (if auto_now_add && _new then now <- datetime_now ;; setattr k now
       else ret tt)
  | _ => ret tt
  end.

(** The loop that builds the hash [h], shared by [_write] and
    [_get_data_for_storage]; the latter's test for a [ReferenceField]
    is never true of a member of [attributes]. *)
Fixpoint storage_loop (_new : bool) (items : list (string * attribute))
    (h : gmap string pyval) : M (gmap string pyval) :=
  match items with
  | [] => ret h
  | (k, v) :: rest =>
      refresh _new k v ;;;
      for_storage <- getattr k ;;
      h' <- (if is_none for_storage then ret h
             else x <- lift (typecast_for_storage v for_storage) ;;
                  ret (<[k := x]> h)) ;;
      storage_loop _new rest h'
  end.

(** [Model._get_data_for_storage] *)
Definition _get_data_for_storage (_new : bool) : M (gmap string pyval) :=
  o <- get_self ;;
  storage_loop _new (attribute_items (__class__ o)) ∅.

(** [pipeline.delete(key); if h: pipeline.hmset(key, h);
    pipeline.execute()]: the queued commands run in order. *)
Definition pipeline_delete_hmset (k : string) (h : gmap string pyval) : M unit :=
  db_delete k ;;;
  if bool_decide (h = ∅) then ret tt else db_hmset k (redis_encode <$> h).

(** [Model._write] *)
Definition _write (_new : bool) : M unit :=
  o <- get_self ;;
  h <- storage_loop _new (attribute_items (__class__ o)) ∅ ;;
  k <- key None ;;
  pipeline_delete_hmset k h.



(** [Model.incr] *)
Definition incr (att : string) (val : Z) : M unit :=
  o <- get_self ;;
  if bool_decide (att ∈ _counters (__class__ o)) then
    k <- key None ;; db_hincrby k att val ;;; ret tt
  else raise ValueError.

(** [Model.decr] *)
Definition decr (att : string) (val : Z) : M unit := incr att (-1 * val).

(** ** Building a record type ([ModelBase.__init__]) *)

Inductive class_member : Type :=
| MAttribute (a : attribute)
| MReference (r : reference_field)
| MOther.

(** [v.name = v.name or k]; a descriptor built without a name has the
    empty name. *)
Definition named (k : string) (a : attribute) : attribute :=
  {| name := if Text.is_empty (name a) then k else name a;
     required := required a; default := default a;
     validator := validator a; class_of := class_of a |}.

Definition ref_named (k : string) (r : reference_field) : reference_field :=
  {| ref_name := if Text.is_empty (ref_name r) then k else ref_name r;
     ref_required := ref_required r; ref_default := ref_default r;
     ref_validator := ref_validator r; _attname := _attname r;
     _related_name := _related_name r; _target_type := _target_type r |}.

(** [_initialize_references]: the references of the class, and the
    class body with the [<name>_id] attributes added to it. *)
Definition _initialize_references (bases : list model_class)
    (attrs : gmap string class_member)
  : gmap string reference_field * gmap string class_member :=
  let inherited :=
    foldl (fun acc parent => _references parent ∪ acc) ∅ bases in
  let own :=
    map_imap (fun k m => match m with
                         | MReference r => Some (ref_named k r)
                         | _ => None
                         end) attrs in
  let h : gmap string class_member :=
    list_to_map ((fun kr : string * reference_field =>
                    (attname kr.2,
                     MAttribute {| name := attname kr.2; required := false;
                                   default := VNone; validator := None;
                                   class_of := CAttribute |}))
                 <$> map_to_list own) in
  (own ∪ inherited, h ∪ attrs).

(** [_initialize_attributes] *)
Definition _initialize_attributes (bases : list model_class)
    (attrs : gmap string class_member) : gmap string attribute :=
  let inherited :=
    foldl (fun acc parent => _attributes parent ∪ acc) ∅ bases in
  let own :=
    map_imap (fun k m => match m with
                         | MAttribute a => Some (named k a)
                         | _ => None
                         end) attrs in
  own ∪ inherited.

(** [l.remove(k)]: the first occurrence goes. *)
Fixpoint list_remove (k : string) (l : list string) : list string :=
  match l with
  | [] => []
  | x :: r => if String.eqb x k then r else x :: list_remove k r
  end.

(** [_initialize_counters] *)
Definition _initialize_counters (bases : list model_class)
    (attrs : gmap string class_member) : list string :=
  let inherited := flat_map _counters bases in
  foldl (fun acc km =>
           match km.2 with
           | MAttribute a =>
               match class_of a with
               | CCounter =>
                   (if bool_decide (km.1 ∈ acc) then list_remove km.1 acc else acc)
                   ++ [km.1]
               | _ => acc
               end
           | _ => acc
           end)%list
        inherited (map_to_list attrs).

(** [_initialize_key]: [Key(model_class._meta['key'] or name)] *)
Definition _initialize_key (class_name : string) (meta_key : option string) : string :=
  match meta_key with
  | Some k => if Text.is_empty k then class_name else k
  | None => class_name
  end.

(** [ModelBase.__init__], for the class object of identity [id] that a
    class statement with the given name, bases, body, [Meta.key] and
    [validate] override creates. *)
Definition ModelBase___init__ (id : N) (class_name : string) (bases : list model_class)
    (attrs : gmap string class_member) (meta_key : option string)
    (hook : gmap string pyval -> errors) : model_class :=
  let '(refs, attrs') := _initialize_references bases attrs in
  {| class_id := id;
     __name__ := class_name;
     __mro__ := id :: flat_map __mro__ bases;
     _key := _initialize_key class_name meta_key;
     _attributes := _initialize_attributes bases attrs';
     _references := refs;
     _counters := _initialize_counters bases attrs';
     validate_hook := hook |}.

(** [Model.validate] as [Model] defines it adds nothing. *)
Definition no_hook : gmap string pyval -> errors := fun _ => [].

(** An instance built by the constructor without arguments:
    [update_attributes] has nothing to set and the dictionary is empty. *)
Definition new_instance (c : model_class) : instance :=
  {| __class__ := c; __dict__ := ∅; _errors := None |}.

(** ** Hydration *)

(** [att.name in d] and [d[att.name]] for the reply of a multi-field
    hash read: a mapping from field name to the bytes stored, or to
    [None] for a field the hash lacks. *)
Definition reply_dict : Type := gmap string (option string).

(** The loop of [Model.typecast_for_read]; a reply value is [None] or a
    byte string, never a tuple, list or dict. *)
Fixpoint hydrate_loop (attrs : list attribute) (d : reply_dict) : M unit :=
  match attrs with
  | [] => ret tt
  | att :: rest =>
      match d !! name att with
      | Some None => descriptor_set att VNone
      | Some (Some s) =>
          v <- lift (typecast_for_read att (VStr s)) ;; descriptor_set att v
      | None => ret tt
      end ;;;
      hydrate_loop rest d
  end.

(** [Model.typecast_for_read]: [false] for the [None] it returns when
    [d] is [None], [true] for [self]. *)
Definition Model_typecast_for_read (d : option reply_dict) : M bool :=
  match d with
  | None => ret false
  | Some d =>
      o <- get_self ;;
      hydrate_loop (attribute_values (__class__ o)) d ;;;
      match d !! "id" with
      | Some None => id_set VNone
      | Some (Some s) => id_set (VStr s)
      | None => ret tt
      end ;;;
      ret true
  end.

(** What [json.loads] gives. *)
#[warnings="-register-all"]
Inductive json : Type :=
| JNull
| JBool (b : bool)
| JInt (n : Z)
| JFloat (x : spec_float)
| JString (s : string)
| JArray (l : list json)
| JObject (l : list (string * json)).

(** A value of an [object_dict]: a field value as it is, or one that
    [deserialize] has parsed. *)
Inductive odval : Type :=
| Plain (v : pyval)
| Loaded (j : json).

Definition json_truthy (j : json) : bool :=
  match j with
  | JNull => false
  | JBool b => b
  | JInt n => negb (n =? 0)%Z
  | JFloat (S754_zero _) => false
  | JFloat _ => true
  | JString s => negb (Text.is_empty s)
  | JArray l => match l with [] => false | _ => true end
  | JObject l => match l with [] => false | _ => true end
  end.

Definition odval_truthy (x : odval) : bool :=
  match x with
  | Plain v => truthy v
  | Loaded j => json_truthy j
  end.

(** [deserialize(value, ignore_error=True)] of [util.py] for a string
    [value] of text [s]; [loads s] is
    [json.loads(s, object_hook=ObjectDict)], [None] when it raises. *)
Definition deserialize (loads : string -> option json) (value : pyval) (s : string)
  : odval :=
  match loads s with
  | Some j => Loaded j
  | None => Plain value
  end.

(** The loop of the property [Model.object_dict]. *)
Fixpoint object_dict_loop (loads : string -> option json) (attrs : list attribute)
    (d : gmap string odval) : M (gmap string odval) :=
  match attrs with
  | [] => ret d
  | att :: rest =>
      value <- getattr (name att) ;;
      let x :=
        match value with
        | VStr s | VUnicode s => deserialize loads value s
        | _ => Plain value
        end in
      object_dict_loop loads rest (<[name att := x]> d)
  end.

(** The property [Model.object_dict] *)
Definition object_dict (loads : string -> option json) : M (gmap string odval) :=
  o <- get_self ;;
  d <- object_dict_loop loads (attribute_values (__class__ o)) ∅ ;;
  i <- id_get ;;
  ret (<["id" := Plain i]> d).

(** ** Equality and hash *)

(** [isinstance(o, c)]: [c] is the class of [o] or one of its
    ancestors. *)
Definition isinstance (o : instance) (c : model_class) : bool :=
  bool_decide (class_id c ∈ __mro__ (__class__ o)).

(** Run [c] on the instance [o] and give back what became of it. *)
Definition on_instance {A} (o : instance) (c : M A) : M (A * instance) :=
  fun s =>
    match c {| self := o; env := env s |} with
    | None => None
    | Some (Ok a, s') => Some (Ok (a, self s'), {| self := self s; env := env s' |})
    | Some (Raise e, s') => Some (Raise e, {| self := self s; env := env s' |})
    end.

(** The second operand of [==]: another record, or some other object. *)
Inductive pyobj : Type :=
| Record_ (o : instance)
| Value (v : pyval).

(** [Model.__eq__] *)
Definition __eq__ (other : pyobj) : M bool :=
  o <- get_self ;;
  match other with
  | Record_ o' =>
      if isinstance o' (__class__ o) then
        k <- key None ;;
        k' <- on_instance o' (key None) ;;
        ret (String.eqb k k'.1)
      else ret false
  | Value _ => ret false
  end.

(** [Model.__ne__] *)
Definition __ne__ (other : pyobj) : M bool :=
  b <- __eq__ other ;; ret (negb b).


(** ** The batch manager ([managers.py])

    An asynchronous call sends its request and returns; the client later
    hands the response to [on_response], which logs and calls the
    callback once. Each [on_response] below returns the argument it
    passes to the callback. *)

(** What the client hands to a callback: an exception or a reply. *)
Inductive response (A : Type) : Type :=
| Failure (e : string)
| Reply (a : A).
Arguments Failure {A} e.
Arguments Reply {A} a.

(** The world after [msg] is logged as an error. *)
Definition logged (msg : string) (w : world) : world :=
  {| db := db w; clock := clock w; async_mode := async_mode w;
     oplog := oplog w; errlog := errlog w ++ [msg] |}.

(** [logging.error(msg)] *)
Definition logging_error (msg : string) : M unit :=
  fun s => Some (Ok tt, {| self := self s; env := logged msg (env s) |}).

(** [any(res.values())] for the reply of a multi-field hash read. *)
Definition any_reply_value (res : reply_dict) : bool :=
  existsb (fun kv : string * option string =>
             match kv.2 with
             | Some s => negb (Text.is_empty s)
             | None => false
             end) (map_to_list res).

(** [any(od.values())] for an object dict. *)
Definition any_od_value (od : gmap string odval) : bool :=
  existsb (fun kv : string * odval => odval_truthy kv.2) (map_to_list od).

Module Manager.

(** [on_response] of [get_by_id_async]; the state's instance is [obj]. *)
Definition get_by_id_async_on_response (res : response reply_dict)
  : M (option instance) :=
  match res with
  | Failure e => logging_error e ;;; ret None
  | Reply res =>
      if any_reply_value res then
        b <- Model_typecast_for_read (Some res) ;;
        o <- get_self ;;
        ret (if b then Some o else None)
      else ret None
  end.

(** The request of [get_by_id_async]: [obj.id = id], then one [HMGET]
    of the attribute names at [obj.key()]. *)
Definition get_by_id_async_request (id : pyval) : M Redis.command :=
  id_set id ;;;
  k <- key None ;;
  o <- get_self ;;
  ret (Redis.HMGET k (fst <$> attribute_items (__class__ o))).

(** The response of a pipeline: an exception, the list of the replies,
    or something else. *)
Inductive pipeline_response (A : Type) : Type :=
| PFailure (e : string)
| PList (l : list A)
| POther (repr : string).
Arguments PFailure {A} e.
Arguments PList {A} l.
Arguments POther {A} repr.

(** The loop of [on_response] of [get_by_ids_async] over
    [zip(ids, res)]. *)
Fixpoint collect (loads : string -> option json) (c : model_class)
    (pairs : list (pyval * option reply_dict)) (ods : list (gmap string odval))
  : M (list (gmap string odval)) :=
  match pairs with
  | [] => ret ods
  | (id, d) :: rest =>
      r <- on_instance (new_instance c)
             (id_set id ;;;
              b <- Model_typecast_for_read d ;;
              if b then object_dict loads else raise AttributeError) ;;
      let od := r.1 in
      collect loads c rest (if any_od_value od then ods ++ [od] else ods)
  end.

(** [on_response] of [get_by_ids_async] *)
Definition get_by_ids_async_on_response (loads : string -> option json)
    (c : model_class) (ids : list pyval)
    (res : pipeline_response (option reply_dict))
  : M (list (gmap string odval)) :=
  match res with
  | PFailure e => logging_error e ;;; ret []
  | PList l => collect loads c (zip ids l) []
  | POther repr => logging_error ("wrong type of res: " ++ repr) ;;; ret []
  end.

(** The requests [get_by_ids_async] queues on the pipeline, one per
    identity, in the order of [ids]. *)
Fixpoint get_by_ids_async_requests (c : model_class) (ids : list pyval)
  : M (list Redis.command) :=
  match ids with
  | [] => ret []
  | id :: rest =>
      r <- on_instance (new_instance c)
             (id_set id ;;;
              k <- key None ;;
              ret (Redis.HMGET k (fst <$> attribute_items c))) ;;
      cmds <- get_by_ids_async_requests c rest ;;
      ret (r.1 :: cmds)
  end.

(** [on_response] of [get_sort_list_async] and of [get_set_async] *)
Definition get_list_async_on_response (res : response (list string))
  : M (list string) :=
  match res with
  | Failure e => logging_error e ;;; ret []
  | Reply l => ret l
  end.

Definition get_sort_list_async_on_response := get_list_async_on_response.
Definition get_set_async_on_response := get_list_async_on_response.

(** [on_response] of [get_sets_async]: [[list(r) for r in res]] *)
Definition get_sets_async_on_response (res : response (list (list string)))
  : M (list (list string)) :=
  match res with
  | Failure e => logging_error e ;;; ret []
  | Reply l => ret ((fun r => r) <$> l)
  end.

(** The request of [get_sort_list_async]. *)
Definition get_sort_list_async_request (k : string) (start end_ : option string)
    (count : option Z) (reverse : bool) : Redis.command :=
  let start := match start with None => "-INF" | Some s => s end in
  let end_ := match end_ with None => "+INF" | Some s => s end in
  let offset := match count with None => None | Some _ => Some 0%Z end in
  if reverse then Redis.ZREVRANGEBYSCORE k end_ start offset count
  else Redis.ZRANGEBYSCORE k start end_ offset count.

End Manager.

(** ** Two writers of one record

    Each writer runs the statement [with Mutex(self): self._write(_new)]
    of [save] on its own instance of the record, against the one store
    and the one clock. A writer is entering (in [Mutex.lock], at one of
    its program points), then leaving (after [_write], before
    [Mutex.unlock]), then finished. A step of the system is a step of one
    writer or the passing of time; a sleeping writer does not step
    before its wake-up time. *)

Module Contention.

Inductive stage : Type :=
| Entering (p : Mutex.pc)
| Leaving
| Finished.

(** The writer is between the return of [lock] and [unlock]. *)
Definition holds (s : stage) : bool :=
  match s with
  | Entering Mutex.Acquired | Leaving => true
  | _ => false
  end.

Definition awake (s : stage) (w : world) : bool :=
  match s with
  | Entering (Mutex.Sleeping until) => (until <=? clock w)%Z
  | _ => true
  end.

(** Run [c]; go to [ok a] when it returns [a], to [failed] when it
    raises. *)
Definition settle {A} (c : M A) (ok : A -> stage) (failed : stage) : M stage :=
  fun s =>
    match c s with
    | None => None
    | Some (Ok a, s') => Some (Ok (ok a), s')
    | Some (Raise _, s') => Some (Ok failed, s')
    end.

(** An exception in [lock] ends the writer; one in [_write] still runs
    [unlock], the exit of the [with] statement. *)
Definition writer_step (s : stage) : M stage :=
  match s with
  | Entering Mutex.Acquired => settle (_write false) (fun _ => Leaving) Leaving
  | Entering p => settle (Mutex.step p) Entering Finished
  | Leaving => settle Mutex.unlock (fun _ => Finished) Finished
  | Finished => ret Finished
  end.

Record writer : Type := { at_ : stage; record : instance }.

Record system : Type := { shared : world; first : writer; second : writer }.

Definition advance (wr : writer) (w : world) : option (writer * world) :=
  if awake (at_ wr) w then
    match writer_step (at_ wr) {| self := record wr; env := w |} with
    | Some (Ok s', st) => Some ({| at_ := s'; record := self st |}, env st)
    | _ => None
    end
  else None.

Inductive sys_step : system -> system -> Prop :=
| step_first s wr w :
    advance (first s) (shared s) = Some (wr, w) ->
    sys_step s {| shared := w; first := wr; second := second s |}
| step_second s wr w :
    advance (second s) (shared s) = Some (wr, w) ->
    sys_step s {| shared := w; first := first s; second := wr |}
| step_time s dt :
    (0 <= dt)%Z ->
    sys_step s {| shared := set_clock (clock (shared s) + dt) (shared s);
                  first := first s; second := second s |}.

Inductive reachable (s0 : system) : system -> Prop :=
| reach_refl : reachable s0 s0
| reach_step s s' : reachable s0 s -> sys_step s s' -> reachable s0 s'.

(** Both writers are about to call [Mutex.lock]. *)
Definition start (w : world) (a b : instance) : system :=
  {| shared := w;
     first := {| at_ := Entering Mutex.AtSetnx; record := a |};
     second := {| at_ := Entering Mutex.AtSetnx; record := b |} |}.

(** No reachable state has both writers between [lock] and [unlock]. *)
Definition never_interleave (s0 : system) : Prop :=
  forall s, reachable s0 s ->
    ~ (holds (at_ (first s)) = true /\ holds (at_ (second s)) = true).

(** A schedule: which writer steps, or how long nothing happens. *)
Inductive move : Type :=
| First
| Second
| Wait (dt : Z).

Definition play (m : move) (s : system) : option system :=
  match m with
  | First =>
      match advance (first s) (shared s) with
      | Some (wr, w) => Some {| shared := w; first := wr; second := second s |}
      | None => None
      end
  | Second =>
      match advance (second s) (shared s) with
      | Some (wr, w) => Some {| shared := w; first := first s; second := wr |}
      | None => None
      end
  | Wait dt =>
      if (0 <=? dt)%Z
      then Some {| shared := set_clock (clock (shared s) + dt) (shared s);
                   first := first s; second := second s |}
      else None
  end.

Fixpoint play_all (ms : list move) (s : system) : option system :=
  match ms with
  | [] => Some s
  | m :: rest =>
      match play m s with
      | Some s' => play_all rest s'
      | None => None
      end
  end.

(** The lock key of writer [wr] holds nothing, or a value that is empty
    or has expired, in the world [w]. *)
Definition lock_free (wr : writer) (w : world) : Prop :=
  exists kk,
    key (Some "_lock") {| self := record wr; env := w |}
      = Some (Ok kk, {| self := record wr; env := w |}) /\
    (db w !! kk = None \/
     exists old, db w !! kk = Some (Redis.RString old) /\
       (Text.is_empty old = true \/ Mutex.lock_has_expired old w = Ok true)).

End Contention.

(** ** Sample declarations *)

Module Sample.

(** [class Person(Model): name = Attribute(required=True);
    hits = Counter()] *)
Definition Person : model_class :=
  ModelBase___init__ 1 "Person" []
    {[ "name" := MAttribute {| name := ""; required := true; default := VNone;
                              validator := None; class_of := CAttribute |};
       "hits" := MAttribute (Counter___init__ "" false None None) ]}
    None no_hook.

(** A world with an empty store at clock [t], synchronous or not. *)
Definition empty_world (t : Z) (asy : bool) : world :=
  {| db := ∅; clock := t; async_mode := asy; oplog := []; errlog := [] |}.

(** [Person()] and [Person(name="ok")] *)
Definition nobody : instance := new_instance Person.

(** A saved [Person] with identity [i] and no field set. *)
Definition person (i : string) : instance :=
  {| __class__ := Person; __dict__ := {[ "_id" := VStr i ]}; _errors := None |}.

(** [class Note(Model): title = Attribute()] *)
Definition Note : model_class :=
  ModelBase___init__ 2 "Note" []
    {[ "title" := MAttribute {| name := ""; required := false; default := VNone;
                               validator := None; class_of := CAttribute |} ]}
    None no_hook.


(** Another class called [Person], with the same body, and a saved
    instance of it with identity [i]. *)
Definition Namesake : model_class :=
  ModelBase___init__ 4 "Person" []
    {[ "name" := MAttribute {| name := ""; required := true; default := VNone;
                              validator := None; class_of := CAttribute |};
       "hits" := MAttribute (Counter___init__ "" false None None) ]}
    None no_hook.
Definition namesake (i : string) : instance :=
  {| __class__ := Namesake; __dict__ := {[ "_id" := VStr i ]}; _errors := None |}.



End Sample.

(** ** Notions used in the statements *)

Module Sample2.


(** A synchronous world whose store holds the record [Person:1] with
    the name [ok] and five hits. *)
Definition stored_world : world :=
  {| db := {[ "Person:1" := Redis.RHash {[ "name" := "ok"; "hits" := "5" ]} ]};
     clock := 1000000; async_mode := false; oplog := []; errlog := [] |}.

End Sample2.

(** A record type whose descriptors are named after the keys they are
    declared under, none of them [id]. *)
Definition wf_class (c : model_class) : Prop :=
  (forall k a, _attributes c !! k = Some a -> name a = k) /\
  _attributes c !! "id" = None.

(** The attributes that [Model] and its metaclass define on the class
    or set on the instance. *)
Definition Model_members : list string :=
  ["is_valid"; "validate"; "update_attributes"; "save"; "save_async"; "key";
   "delete"; "is_new"; "incr"; "decr"; "attributes_dict"; "id"; "attributes";
   "references"; "db"; "errors"; "fields"; "counters"; "exists";
   "_initialize_id"; "_initialize_id_async"; "_write"; "_get_data_for_storage";
   "typecast_for_read"; "object_dict"; "objects";
   "_meta"; "_key"; "_attributes"; "_references"; "_counters";
   "_errors"; "_id"].

(** A field or a reference declared under the name [k] would take the
    place of a member of [Model], or its slot ['_' + k] would. *)
Definition clashes (k : string) : bool :=
  bool_decide (k ∈ Model_members) || bool_decide ("_" ++ k ∈ Model_members).

(** No field and no reference of the class does. *)
Definition clear_of_Model (c : model_class) : Prop :=
  map_Forall (fun k (_ : attribute) => clashes k = false) (_attributes c) /\
  map_Forall (fun k (_ : reference_field) => clashes k = false) (_references c).

(** The state after [self._errors = []], the first statement of
    [is_valid]. *)
Definition reset_errors (s : state) : state :=
  {| self := set_errors [] (self s); env := env s |}.



(** A call that always comes back, with a value or an exception. *)
Definition total {A} (c : M A) : Prop := forall s, is_Some (c s).


(** A call that changes at most [_errors], however it ends. *)
Definition changes_errors_only {A} (c : M A) : Prop :=
  forall s r s', c s = Some (r, s') ->
    __class__ (self s') = __class__ (self s) /\
    __dict__ (self s') = __dict__ (self s) /\ env s' = env s.

(** The request that [get_by_ids_async] queues for the identity [id]:
    the [HMGET] of the fields of the class at the key of [id]. *)
Definition request_of (c : model_class) (id : pyval) (cmd : Redis.command) : Prop :=
  exists i u,
    py_str id = Ok i /\ py_unicode (VStr i) = Ok u /\
    cmd = Redis.HMGET (Key_getitem (_key c) u) (attribute_items c).*1.

(** * Properties *)

Example int_of_str_ex1 : Text.int_of_str "  -0042 " = Ok (-42).
Proof. reflexivity. Qed.
Example int_of_str_ex2 : Text.int_of_str "abc" = Raise ValueError.
Proof. reflexivity. Qed.
Example int_of_str_ex3 : Text.int_of_str "" = Raise ValueError.
Proof. reflexivity. Qed.
Example int_of_str_ex4 : Text.int_of_str "1 2" = Raise ValueError.
Proof. reflexivity. Qed.
Example str_of_int_ex : Text.str_of_int (-1070) = "-1070".
Proof. reflexivity. Qed.
Example fixed_digits_ex : Text.fixed_digits 6 1070 = "001070".
Proof. reflexivity. Qed.

Example format_f_ex1 : PyFloat.format_f (PyFloat.of_decimal false 15 (-1)) = "1.500000".
Proof. vm_compute. reflexivity. Qed.
Example format_f_ex2 : PyFloat.format_f (PyFloat.of_decimal true 1234567 (-7)) = "-0.123457".
Proof. vm_compute. reflexivity. Qed.
Example of_str_ex1 : PyFloat.of_str " 1.5e0 " = Ok (S754_finite false 6755399441055744 (-52)).
Proof. vm_compute. reflexivity. Qed.
Example of_str_ex2 : PyFloat.of_str "0.1" = Ok (S754_finite false 7205759403792794 (-56)).
Proof. vm_compute. reflexivity. Qed.
Example of_str_ex3 : PyFloat.of_str "1.5.2" = Raise ValueError.
Proof. vm_compute. reflexivity. Qed.
Example of_str_ex4 : PyFloat.of_str "-Infinity" = Ok (S754_infinity true).
Proof. vm_compute. reflexivity. Qed.

(** ** Decimal text *)

Section DecimalText.

Import Text.

#[local] Open Scope N_scope.

Lemma digit_not_space c : Text.is_digit c = true -> Text.is_space c = false.
Proof. destruct c as [[] [] [] [] [] [] [] []]; vm_compute; congruence. Qed.

Lemma digits_spaceless s : digits s -> spaceless s.
Proof.
  unfold digits, spaceless. induction s as [|c r IH]; simpl; [done|].
  intros [Hc Hr]%andb_prop. rewrite (digit_not_space c Hc). simpl. auto.
Qed.

Lemma rstrip_spaceless s : spaceless s -> Text.rstrip s = s.
Proof.
  unfold spaceless. induction s as [|c r IH]; simpl; [done|].
  intros [Hc Hr]%andb_prop. rewrite (IH Hr).
  apply negb_true_iff in Hc. by rewrite Hc.
Qed.

Lemma lstrip_spaceless s : spaceless s -> Text.lstrip s = s.
Proof.
  unfold spaceless. destruct s as [|c r]; simpl; [done|].
  intros [Hc _]%andb_prop. apply negb_true_iff in Hc. by rewrite Hc.
Qed.

Lemma strip_spaceless s : spaceless s -> Text.strip s = s.
Proof.
  intros H. unfold Text.strip. rewrite (lstrip_spaceless s H).
  by apply rstrip_spaceless.
Qed.

Lemma digits_app a b : digits a -> digits b -> digits (a ++ b).
Proof.
  unfold digits. induction a as [|c r IH]; simpl; [done|].
  intros [Hc Hr]%andb_prop Hb. rewrite Hc. simpl. auto.
Qed.

Lemma digits_string_of_uint d : digits (NilEmpty.string_of_uint d).
Proof. unfold digits. induction d; simpl; auto. Qed.

Lemma digits_of_N_digits n : digits (Text.digits_of_N n).
Proof. apply digits_string_of_uint. Qed.

Lemma digits_of_N_nonempty n : Text.is_empty (Text.digits_of_N n) = false.
Proof.
  unfold Text.digits_of_N. destruct n as [|p]; [done|].
  simpl. pose proof (Unsigned.to_uint_nonnil p) as H.
  destruct (Pos.to_uint p); simpl; congruence.
Qed.

Lemma digits_val_app acc a b :
  Text.digits_val acc (a ++ b) =
  match Text.digits_val acc a with
  | Some x => Text.digits_val x b
  | None => None
  end.
Proof.
  revert acc. induction a as [|c r IH]; intros acc; simpl; [done|].
  destruct (Text.digit_val c); [apply IH | done].
Qed.

Lemma digits_val_uint_acc d (acc : positive) :
  Text.digits_val (Npos acc) (NilEmpty.string_of_uint d) =
  Some (Npos (Pos.of_uint_acc d acc)).
Proof.
  revert acc. induction d; intros acc; simpl; [done | ..];
    change (Text.digit_val _) with (Some 0) || change (Text.digit_val _) with (Some 1)
    || change (Text.digit_val _) with (Some 2) || change (Text.digit_val _) with (Some 3)
    || change (Text.digit_val _) with (Some 4) || change (Text.digit_val _) with (Some 5)
    || change (Text.digit_val _) with (Some 6) || change (Text.digit_val _) with (Some 7)
    || change (Text.digit_val _) with (Some 8) || change (Text.digit_val _) with (Some 9);
    cbv beta iota; rewrite <- IHd; f_equal; lia.
Qed.

Lemma digits_val_uint d :
  Text.digits_val 0 (NilEmpty.string_of_uint d) = Some (Pos.of_uint d).
Proof.
  induction d; simpl; [done | exact IHd | ..];
    change (Text.digit_val _) with (Some 1) || change (Text.digit_val _) with (Some 2)
    || change (Text.digit_val _) with (Some 3) || change (Text.digit_val _) with (Some 4)
    || change (Text.digit_val _) with (Some 5) || change (Text.digit_val _) with (Some 6)
    || change (Text.digit_val _) with (Some 7) || change (Text.digit_val _) with (Some 8)
    || change (Text.digit_val _) with (Some 9);
    cbv beta iota; apply digits_val_uint_acc.
Qed.

Lemma digits_val_digits_of_N n : Text.digits_val 0 (Text.digits_of_N n) = Some n.
Proof.
  unfold Text.digits_of_N. rewrite digits_val_uint.
  f_equal. apply (DecimalN.Unsigned.of_to n).
Qed.

Lemma nat_of_digits_of_N n : Text.nat_of_digits (Text.digits_of_N n) = Some n.
Proof.
  unfold Text.nat_of_digits. rewrite digits_of_N_nonempty.
  apply digits_val_digits_of_N.
Qed.

Lemma int_of_str_digits s :
  digits s -> Text.is_empty s = false ->
  Text.int_of_str s =
  match Text.nat_of_digits s with
  | Some n => Ok (Z.of_N n)
  | None => Raise ValueError
  end.
Proof.
  intros Hd Hne. unfold Text.int_of_str.
  rewrite (strip_spaceless s (digits_spaceless s Hd)).
  destruct s as [|c r]; [done|].
  unfold digits in Hd. simpl in Hd. apply andb_prop in Hd as [Hc _].
  destruct c as [[] [] [] [] [] [] [] []]; try discriminate Hc; reflexivity.
Qed.

Lemma int_of_str_minus s :
  digits s ->
  Text.int_of_str (String "-" s) =
  match Text.nat_of_digits s with
  | Some n => Ok (- Z.of_N n)%Z
  | None => Raise ValueError
  end.
Proof.
  intros Hd. unfold Text.int_of_str.
  rewrite strip_spaceless; [done|].
  unfold spaceless. simpl. apply (digits_spaceless s Hd).
Qed.

Lemma int_of_str_of_int (n : Z) : Text.int_of_str (Text.str_of_int n) = Ok n.
Proof.
  destruct n as [|p|p]; simpl; [done | ..].
  - rewrite int_of_str_digits, nat_of_digits_of_N;
      [done | apply digits_of_N_digits | apply digits_of_N_nonempty].
  - rewrite int_of_str_minus, nat_of_digits_of_N;
      [done | apply digits_of_N_digits].
Qed.

(** [int(s)] on a string raises nothing but [ValueError]. *)
Lemma int_of_str_raises s e : Text.int_of_str s = Raise e -> e = ValueError.
Proof.
  unfold Text.int_of_str.
  destruct (Text.strip s) as [|c r]; simpl.
  - intros [= <-]. done.
  - repeat case_match; congruence.
Qed.

End DecimalText.

(** ** Read and store casts *)

(** C2. The read cast of a date or datetime field does not turn
    malformed text into [None]: [int("abc")] raises [ValueError], which
    the clause [except TypeError, ValueError] does not catch, so the
    cast raises; and no string at all is read as [None]. *)
Theorem C2_date_read_cast_raises_on_malformed_text :
  DateTimeField.typecast_for_read (VStr "abc") = Raise ValueError /\
  DateField.typecast_for_read (VStr "abc") = Raise ValueError /\
  (forall s, Text.int_of_str s = Raise ValueError ->
     DateTimeField.typecast_for_read (VStr s) = Raise ValueError /\
     DateField.typecast_for_read (VStr s) = Raise ValueError) /\
  (forall s, DateTimeField.typecast_for_read (VStr s) <> Ok VNone /\
             DateField.typecast_for_read (VStr s) <> Ok VNone).
Proof.
  split; [reflexivity|]. split; [reflexivity|]. split.
  - intros s Hs. unfold DateTimeField.typecast_for_read, DateField.typecast_for_read.
    simpl. by rewrite Hs.
  - intros s. unfold DateTimeField.typecast_for_read, DateField.typecast_for_read.
    simpl. destruct (Text.int_of_str s) as [n|e] eqn:Hs; simpl.
    + unfold Calendar.datetime_fromtimestamp, Calendar.date_fromtimestamp.
      destruct (Calendar.in_range n); simpl; split; congruence.
    + apply int_of_str_raises in Hs as ->. simpl. split; congruence.
Qed.

Section FloatText.

Import Text PyFloat.
#[local] Open Scope N_scope.

Lemma digit_val_digit d :
  d < 10 -> digit_val (ascii_of_N (48 + d)) = Some d.
Proof.
  intros H.
  assert (d = 0 \/ d = 1 \/ d = 2 \/ d = 3 \/ d = 4 \/ d = 5 \/ d = 6 \/
          d = 7 \/ d = 8 \/ d = 9) as Hd by lia.
  destruct Hd as [-> | [-> | [-> | [-> | [-> | [-> | [-> | [-> | [-> | ->]]]]]]]]];
    reflexivity.
Qed.

Lemma is_digit_digit d : d < 10 -> is_digit (ascii_of_N (48 + d)) = true.
Proof.
  intros H. pose proof (digit_val_digit d H) as Hv.
  unfold digit_val in Hv. by destruct (is_digit _).
Qed.

Lemma digits_val_fixed k : forall v acc,
  digits_val acc (fixed_digits k v) = Some (acc * 10 ^ N.of_nat k + v mod 10 ^ N.of_nat k).
Proof.
  induction k as [|k IH]; intros v acc.
  - simpl. f_equal. rewrite N.mod_1_r. lia.
  - cbn [fixed_digits]. rewrite digits_val_app, IH. cbn [digits_val].
    rewrite digit_val_digit by (apply N.mod_lt; lia).
    f_equal. rewrite Nat2N.inj_succ, N.pow_succ_r'.
    rewrite (N.Div0.mod_mul_r v 10). lia.
Qed.

Lemma digits_fixed k : forall v, digits (fixed_digits k v).
Proof.
  induction k as [|k IH]; intros v; [done|].
  cbn [fixed_digits]. apply digits_app; [apply IH|].
  unfold digits. simpl. rewrite is_digit_digit; [done|]. apply N.mod_lt. lia.
Qed.

Lemma length_app (a b : string) :
  String.length (a ++ b) = (String.length a + String.length b)%nat.
Proof. induction a as [|c r IH]; simpl; [done | by rewrite IH]. Qed.

Lemma length_fixed k : forall v, String.length (fixed_digits k v) = k.
Proof.
  induction k as [|k IH]; intros v; [done|].
  cbn [fixed_digits]. rewrite length_app, IH. simpl. lia.
Qed.

Lemma split_at_none p s :
  all_chars (fun c => negb (p c)) s = true -> split_at p s = (s, None).
Proof.
  induction s as [|c r IH]; simpl; [done|].
  intros [Hc Hr]%andb_prop. apply negb_true_iff in Hc. rewrite Hc.
  by rewrite (IH Hr).
Qed.

Lemma split_at_first p a c b :
  all_chars (fun c => negb (p c)) a = true -> p c = true ->
  split_at p (a ++ String c b) = (a, Some b).
Proof.
  intros Ha Hc. induction a as [|x r IH]; simpl.
  - by rewrite Hc.
  - simpl in Ha. apply andb_prop in Ha as [Hx Hr].
    apply negb_true_iff in Hx. rewrite Hx. by rewrite (IH Hr).
Qed.

Lemma all_chars_app p a b :
  all_chars p a = true -> all_chars p b = true -> all_chars p (a ++ b) = true.
Proof.
  induction a as [|c r IH]; simpl; [done|].
  intros [Hc Hr]%andb_prop Hb. rewrite Hc. simpl. auto.
Qed.

Lemma all_chars_impl (p q : ascii -> bool) s :
  (forall c, p c = true -> q c = true) ->
  all_chars p s = true -> all_chars q s = true.
Proof.
  intros Hpq. induction s as [|c r IH]; simpl; [done|].
  intros [Hc Hr]%andb_prop. rewrite (Hpq c Hc). simpl. auto.
Qed.

Lemma digit_not_dot c : is_digit c = true -> negb (is_dot c) = true.
Proof. destruct c as [[] [] [] [] [] [] [] []]; vm_compute; congruence. Qed.

Lemma digit_not_e c : is_digit c = true -> negb (is_e c) = true.
Proof. destruct c as [[] [] [] [] [] [] [] []]; vm_compute; congruence. Qed.

Lemma fixed_point_spaceless n : spaceless (fixed_point n).
Proof.
  unfold fixed_point, spaceless. apply all_chars_app.
  - apply digits_spaceless, digits_of_N_digits.
  - cbn [all_chars]. apply andb_true_intro. split; [done|].
    apply digits_spaceless, digits_fixed.
Qed.

Lemma fixed_point_head n :
  exists c r, fixed_point n = String c r /\ is_digit c = true.
Proof.
  unfold fixed_point. pose proof (digits_of_N_digits (n / 1000000)) as Hd.
  pose proof (digits_of_N_nonempty (n / 1000000)) as Hne.
  destruct (digits_of_N (n / 1000000)) as [|c r]; [done|].
  exists c, (r ++ String "." (fixed_digits 6 (n mod 1000000)))%string. split; [done|].
  unfold digits in Hd. simpl in Hd. by apply andb_prop in Hd as [Hc _].
Qed.

Lemma fixed_point_no_e n :
  all_chars (fun c => negb (is_e c)) (fixed_point n) = true.
Proof.
  unfold fixed_point. apply all_chars_app.
  - eapply all_chars_impl; [apply digit_not_e | apply digits_of_N_digits].
  - cbn [all_chars]. apply andb_true_intro. split; [done|].
    eapply all_chars_impl; [apply digit_not_e | apply digits_fixed].
Qed.

Lemma fixed_point_value n :
  digits_val 0 (digits_of_N (n / 1000000) ++ fixed_digits 6 (n mod 1000000)) = Some n.
Proof.
  rewrite digits_val_app, digits_val_digits_of_N, digits_val_fixed.
  f_equal. change (10 ^ N.of_nat 6) with 1000000.
  rewrite N.Div0.mod_mod. pose proof (N.div_mod n 1000000). lia.
Qed.

Lemma digit_head_not_special c r :
  is_digit c = true ->
  String.eqb (lower_str (String c r)) "inf" = false /\
  String.eqb (lower_str (String c r)) "infinity" = false /\
  String.eqb (lower_str (String c r)) "nan" = false.
Proof.
  destruct c as [[] [] [] [] [] [] [] []]; intros Hc; try discriminate Hc;
    repeat split; reflexivity.
Qed.

Lemma is_empty_app_l (a b : string) :
  is_empty a = false -> is_empty (a ++ b) = false.
Proof. by destruct a. Qed.

Lemma of_str_unsigned_fixed_point neg n :
  of_str_unsigned neg (fixed_point n) = Ok (of_decimal neg n (-6)).
Proof.
  unfold of_str_unsigned.
  destruct (fixed_point_head n) as (c & r & Heq & Hc).
  destruct (digit_head_not_special c r Hc) as (H1 & H2 & H3).
  rewrite Heq, H1, H2, H3. rewrite <- Heq. cbn [orb].
  rewrite (split_at_none is_e _ (fixed_point_no_e n)).
  unfold fixed_point at 1.
  rewrite split_at_first;
    [| eapply all_chars_impl; [apply digit_not_dot | apply digits_of_N_digits] | done].
  rewrite is_empty_app_l by apply digits_of_N_nonempty.
  rewrite fixed_point_value, length_fixed. reflexivity.
Qed.

Lemma of_str_signed_fixed_point neg n :
  of_str (sign_str neg ++ fixed_point n) = Ok (of_decimal neg n (-6)).
Proof.
  unfold of_str. destruct neg; cbn [sign_str append].
  - rewrite strip_spaceless.
    + apply of_str_unsigned_fixed_point.
    + unfold spaceless. cbn [all_chars]. apply andb_true_intro.
      split; [done | apply fixed_point_spaceless].
  - rewrite strip_spaceless by apply fixed_point_spaceless.
    pose proof (of_str_unsigned_fixed_point false n) as H.
    destruct (fixed_point_head n) as (c & r & Heq & Hc).
    rewrite Heq in *.
    destruct c as [[] [] [] [] [] [] [] []]; try discriminate Hc; exact H.
Qed.

End FloatText.

Lemma read_back_float a x :
  class_of a = CFloatField ->
  read_back a (VFloat x) = Ok (VFloat (PyFloat.six_decimals x)).
Proof.
  intros Ha. unfold read_back, typecast_for_storage, typecast_for_read.
  rewrite Ha. unfold FloatField.typecast_for_storage. cbn [is_none format_percent_f rbind].
  unfold FloatField.typecast_for_read. cbn [py_float].
  destruct x as [s|s| |s m e]; cbn [PyFloat.format_f PyFloat.six_decimals].
  - by destruct s.
  - by destruct s.
  - done.
  - by rewrite of_str_signed_fixed_point.
Qed.

Lemma read_back_int a n :
  class_of a = CIntegerField \/ class_of a = CCounter ->
  read_back a (VInt n) = Ok (VInt n).
Proof.
  intros Ha. unfold read_back, typecast_for_storage, typecast_for_read.
  assert (IntegerField.typecast_for_read (VUnicode (Text.str_of_int n)) = Ok (VInt n)) as H.
  { unfold IntegerField.typecast_for_read. cbn [py_int].
    by rewrite int_of_str_of_int. }
  destruct Ha as [-> | ->]; exact H.
Qed.

Lemma mktime_from_1900 t :
  (Calendar.year_1900 <= t)%Z -> Calendar.mktime t = Ok t.
Proof.
  intros H1. unfold Calendar.mktime. by rewrite (proj2 (Z.leb_le _ _) H1).
Qed.

Lemma mktime_rejects_old_years t :
  (Calendar.year_100 <= t < Calendar.year_1900)%Z ->
  Calendar.mktime t = Raise ValueError.
Proof.
  intros [H1 H2]. unfold Calendar.mktime.
  rewrite (proj2 (Z.leb_gt _ _) H2), (proj2 (Z.leb_le _ _) H1). reflexivity.
Qed.

(** C3, as the code has it, local time being UTC. Reading back what the
    store cast wrote returns the original for every unicode text, every
    bool and every int. A float comes back rounded to six decimal
    places, since it is written with ["%f"]. A datetime from 1900 on
    comes back with its microsecond dropped, and a date from 1900 on
    comes back unchanged; a datetime or a date of a year from 100 to
    1899 is not written at all: the store cast raises [ValueError]. *)
Theorem C3_round_trip (a : attribute) (v : pyval) :
  of_value_type a v = true ->
  match v with
  | VFloat x => read_back a v = Ok (VFloat (PyFloat.six_decimals x))
  | VDatetime d =>
      ((Calendar.year_1900 <= Calendar.dt_epoch d)%Z ->
       Calendar.in_range (Calendar.dt_epoch d) = true ->
       read_back a v =
       Ok (VDatetime {| Calendar.dt_epoch := Calendar.dt_epoch d;
                        Calendar.dt_usec := 0 |})) /\
      ((Calendar.year_100 <= Calendar.dt_epoch d < Calendar.year_1900)%Z ->
       typecast_for_storage a v = Raise ValueError /\
       read_back a v = Raise ValueError)
  | VDate d =>
      ((Calendar.year_1900 <= 86400 * Calendar.d_days d)%Z ->
       Calendar.in_range (86400 * Calendar.d_days d) = true ->
       read_back a v = Ok v) /\
      ((Calendar.year_100 <= 86400 * Calendar.d_days d < Calendar.year_1900)%Z ->
       typecast_for_storage a v = Raise ValueError /\
       read_back a v = Raise ValueError)
  | _ => read_back a v = Ok v
  end.
Proof.
  unfold of_value_type. intros Hty.
  destruct v as [|b|n|x|s|s|d|d]; destruct (class_of a) eqn:Ha; try discriminate Hty.
  - unfold read_back, typecast_for_storage, typecast_for_read. rewrite Ha.
    by destruct b.
  - apply read_back_int. by left.
  - apply read_back_int. by right.
  - by apply read_back_float.
  - unfold read_back, typecast_for_storage, typecast_for_read. by rewrite Ha.
  - unfold read_back, typecast_for_storage, typecast_for_read. by rewrite Ha.
  - unfold read_back, typecast_for_storage, typecast_for_read. rewrite Ha.
    unfold DateTimeField.typecast_for_storage, DateTimeField.typecast_for_read.
    cbn [DateTimeField.acceptable negb is_none].
    unfold Calendar.datetime_mktime. split.
    + intros H1 Hr. rewrite (mktime_from_1900 _ H1). cbn [rbind py_int].
      rewrite int_of_str_of_int. cbn [rbind].
      unfold Calendar.datetime_fromtimestamp. by rewrite Hr.
    + intros H. by rewrite (mktime_rejects_old_years _ H).
  - unfold read_back, typecast_for_storage, typecast_for_read. rewrite Ha.
    unfold DateField.typecast_for_storage, DateField.typecast_for_read.
    cbn [DateField.acceptable negb is_none].
    unfold Calendar.date_mktime. split.
    + intros H1 Hr. rewrite (mktime_from_1900 _ H1). cbn [rbind py_int].
      rewrite int_of_str_of_int. cbn [rbind].
      unfold Calendar.date_fromtimestamp. rewrite Hr.
      destruct d as [days]. cbn [Calendar.d_days rbind try_except_TypeError].
      do 3 f_equal. rewrite Z.mul_comm. apply Z.div_mul. lia.
    + intros H. by rewrite (mktime_rejects_old_years _ H).
Qed.

Lemma C3_round_trip_witness :
  of_value_type (plain_field (CDateTimeField false false) "seen")
     (VDatetime {| Calendar.dt_epoch := 1000000000; Calendar.dt_usec := 123456 |}) = true /\
  (Calendar.year_1900 <= 1000000000)%Z /\
  Calendar.in_range 1000000000 = true /\
  read_back (plain_field (CDateTimeField false false) "seen")
     (VDatetime {| Calendar.dt_epoch := 1000000000; Calendar.dt_usec := 123456 |}) =
  Ok (VDatetime {| Calendar.dt_epoch := 1000000000; Calendar.dt_usec := 0 |}).
Proof.
  assert (Calendar.year_1900 <= 1000000000)%Z as H1 by (vm_compute; discriminate).
  split; [reflexivity|]. split; [exact H1|]. split; [reflexivity|].
  exact (proj1 (C3_round_trip (plain_field (CDateTimeField false false) "seen")
           (VDatetime {| Calendar.dt_epoch := 1000000000; Calendar.dt_usec := 123456 |})
           eq_refl) H1 eq_refl).
Defined.

(** C3 as stated fails for a float and for a datetime before 1900:
    [1e-7] is written as ["0.000000"] and read back as [0.0], and
    1800-01-01 00:00:00 is not written at all, the store cast raises
    [ValueError]. *)
Lemma C3_float_and_old_datetime_do_not_round_trip :
  (read_back (plain_field CFloatField "ratio") (VFloat (PyFloat.of_decimal false 1 (-7))) =
     Ok (VFloat (S754_zero false)) /\
   ~ round_trips (plain_field CFloatField "ratio") (VFloat (PyFloat.of_decimal false 1 (-7)))) /\
  (of_value_type (plain_field (CDateTimeField false false) "seen")
     (VDatetime {| Calendar.dt_epoch := -5364662400; Calendar.dt_usec := 0 |}) = true /\
   typecast_for_storage (plain_field (CDateTimeField false false) "seen")
     (VDatetime {| Calendar.dt_epoch := -5364662400; Calendar.dt_usec := 0 |}) =
     Raise ValueError /\
   ~ round_trips (plain_field (CDateTimeField false false) "seen")
       (VDatetime {| Calendar.dt_epoch := -5364662400; Calendar.dt_usec := 0 |})).
Proof.
  split.
  - assert (read_back (plain_field CFloatField "ratio")
              (VFloat (PyFloat.of_decimal false 1 (-7))) = Ok (VFloat (S754_zero false))) as H.
    { vm_compute. reflexivity. }
    split; [exact H|].
    intros (v' & Hv & Heq). rewrite H in Hv. injection Hv as <-.
    vm_compute in Heq. discriminate Heq.
  - split; [reflexivity|]. split; [vm_compute; reflexivity|].
    intros (v' & Hv & _). vm_compute in Hv. discriminate Hv.
Qed.

(** ** The model at work *)

Example person_attributes :
  attribute_items Sample.Person =
  [("hits", Counter___init__ "hits" false None None);
   ("name", {| name := "name"; required := true; default := VNone;
               validator := None; class_of := CAttribute |})] \/
  attribute_items Sample.Person =
  [("name", {| name := "name"; required := true; default := VNone;
               validator := None; class_of := CAttribute |});
   ("hits", Counter___init__ "hits" false None None)].
Proof. vm_compute. auto. Qed.

(** ** The monad *)

Lemma bind_inv {A B} (c : M A) (k : A -> M B) s r s' :
  bind c k s = Some (r, s') ->
  (exists a s1, c s = Some (Ok a, s1) /\ k a s1 = Some (r, s')) \/
  (exists e, c s = Some (Raise e, s') /\ r = Raise e).
Proof.
  unfold bind. destruct (c s) as [[[a|e] s1]|]; [eauto | | done].
  intros [= <- <-]. eauto.
Qed.

Lemma bind_ok_inv {A B} (c : M A) (k : A -> M B) s b s' :
  bind c k s = Some (Ok b, s') ->
  exists a s1, c s = Some (Ok a, s1) /\ k a s1 = Some (Ok b, s').
Proof.
  intros [H | (e & _ & [=])]%bind_inv. exact H.
Qed.

Lemma bind_total {A B} (c : M A) (k : A -> M B) s :
  is_Some (c s) -> (forall a s1, is_Some (k a s1)) -> is_Some (bind c k s).
Proof.
  intros [[[a|e] s1] Hc] Hk; unfold bind; rewrite Hc; [apply Hk | eauto].
Qed.

Lemma key_value o w att v :
  __dict__ o !! "_id" = Some v ->
  key att {| self := o; env := w |} =
  match py_unicode v with
  | Ok s =>
      Some (Ok (match att with
                | Some a => Key_getitem (Key_getitem (_key (__class__ o)) s) a
                | None => Key_getitem (_key (__class__ o)) s
                end), {| self := o; env := w |})
  | Raise e => Some (Raise e, {| self := o; env := w |})
  end.
Proof.
  intros Hid. unfold key, id_get, bind, get_self, lift. cbn. rewrite Hid. cbn.
  destruct (py_unicode v); [destruct att |]; reflexivity.
Qed.

Lemma key_new o w att :
  __dict__ o !! "_id" = None ->
  key att {| self := o; env := w |} = Some (Raise MissingID, {| self := o; env := w |}).
Proof.
  intros Hid. unfold key, id_get, bind, get_self. cbn. by rewrite Hid.
Qed.

Lemma key_pure att s r s' : key att s = Some (r, s') -> s' = s.
Proof.
  destruct s as [o w]. destruct (__dict__ o !! "_id") as [v|] eqn:Hid.
  - rewrite (key_value _ _ _ _ Hid). destruct (py_unicode v); by intros [= _ <-].
  - rewrite (key_new _ _ _ Hid). by intros [= _ <-].
Qed.

Lemma bind_ext {A B} (c : M A) (f g : A -> M B) s :
  (forall a s1, f a s1 = g a s1) -> bind c f s = bind c g s.
Proof. intros H. unfold bind. destruct (c s) as [[[a|e] s1]|]; auto. Qed.

Lemma bind_ok {A B} (c : M A) (k : A -> M B) s a s1 :
  c s = Some (Ok a, s1) -> bind c k s = k a s1.
Proof. intros H. unfold bind. by rewrite H. Qed.

Lemma bind_raise {A B} (c : M A) (k : A -> M B) s e s1 :
  c s = Some (Raise e, s1) -> bind c k s = Some (Raise e, s1).
Proof. intros H. unfold bind. by rewrite H. Qed.

Lemma key_env att o w w' kk :
  key att {| self := o; env := w |} = Some (Ok kk, {| self := o; env := w |}) ->
  key att {| self := o; env := w' |} = Some (Ok kk, {| self := o; env := w' |}).
Proof.
  intros H. destruct (__dict__ o !! "_id") as [v|] eqn:E.
  - rewrite (key_value o w att v E) in H. rewrite (key_value o w' att v E).
    destruct (py_unicode v); [|done]. by injection H as ->.
  - by rewrite (key_new o w att E) in H.
Qed.

(** A read of a counter of a saved record in synchronous mode. *)
Lemma key_same_identity att s s' kk :
  __class__ (self s') = __class__ (self s) ->
  __dict__ (self s') !! "_id" = __dict__ (self s) !! "_id" ->
  key att s = Some (Ok kk, s) -> key att s' = Some (Ok kk, s').
Proof.
  intros Hc Hi Hk. destruct s as [o w], s' as [o' w']. cbn in Hc, Hi.
  destruct (__dict__ o !! "_id") as [v|] eqn:E.
  - rewrite (key_value o w att v E) in Hk. rewrite (key_value o' w' att v Hi).
    rewrite Hc. destruct (py_unicode v); [|done]. by injection Hk as ->.
  - by rewrite (key_new o w att E) in Hk.
Qed.

(** ** Calls that always come back *)

Lemma total_bind {A B} (c : M A) (k : A -> M B) :
  total c -> (forall a, total (k a)) -> total (bind c k).
Proof. intros Hc Hk s. apply bind_total; [apply Hc | intros; apply Hk]. Qed.

Lemma total_ret {A} (a : A) : total (ret a).
Proof. intros s. by eexists. Qed.

Lemma total_lift {A} (x : result A) : total (lift x).
Proof. intros s. by eexists. Qed.

Lemma total_raise {A} e : total (@raise A e).
Proof. intros s. by eexists. Qed.

Lemma total_get_self : total get_self.
Proof. intros s. by eexists. Qed.

Lemma total_key att : total (key att).
Proof.
  unfold key. apply total_bind.
  - unfold id_get. apply total_bind; [apply total_get_self|].
    intros o. destruct (__dict__ o !! "_id"); [apply total_ret | apply total_raise].
  - intros i. apply total_bind; [apply total_lift|]. intros u.
    apply total_bind; [apply total_get_self|]. intros o.
    destruct att; apply total_ret.
Qed.
Lemma total_getattr j : total (getattr j).
Proof.
  unfold getattr. apply total_bind; [apply total_get_self|]. intros o.
  destruct (declared (__class__ o) j); [apply total_raise|].
  destruct (__dict__ o !! j); [apply total_ret | apply total_raise].
Qed.

Lemma total_getattr_or_None j : total (getattr_or_None j).
Proof.
  intros s. unfold getattr_or_None. destruct (total_getattr j s) as [[[v|e] s1] ->].
  - by eexists.
  - destruct e; by eexists.
Qed.

Lemma total_extend_errors e : total (extend_errors e).
Proof. intros s. by eexists. Qed.

Lemma total_Attribute_validate a : total (Attribute_validate a).
Proof.
  unfold Attribute_validate.
  apply total_bind; [apply total_getattr|]. intros value.
  apply total_bind; [|intros; apply total_ret].
  destruct (required a); [|apply total_ret].
  destruct (is_none value); [apply total_ret|].
  apply total_bind; [apply total_lift | intros; apply total_ret].
Qed.

Lemma total_validate a : total (validate a).
Proof.
  unfold validate.
  destruct (class_of a); try apply total_Attribute_validate.
  unfold CharField_validate.
  apply total_bind; [apply total_Attribute_validate|]. intros errs.
  apply total_bind; [apply total_getattr|]. intros value.
  apply total_bind; [|intros; apply total_ret].
  destruct (truthy value); [|apply total_ret].
  apply total_bind; [apply total_lift | intros; apply total_ret].
Qed.

Lemma total_ReferenceField_validate r : total (ReferenceField_validate r).
Proof.
  unfold ReferenceField_validate.
  apply total_bind; [apply total_getattr_or_None|]. intros value.
  apply total_bind; [|intros; apply total_ret].
  destruct (truthy value); [|apply total_ret].
  apply total_bind; [apply total_lift | intros; apply total_ret].
Qed.

Lemma total_validate_attributes fields : total (validate_attributes fields).
Proof.
  induction fields as [|f rest IH]; cbn [validate_attributes]; [apply total_ret|].
  apply total_bind; [apply total_validate|]. intros e.
  apply total_bind; [apply total_extend_errors | intros; apply IH].
Qed.

Lemma total_validate_references fields : total (validate_references fields).
Proof.
  induction fields as [|f rest IH]; cbn [validate_references]; [apply total_ret|].
  apply total_bind; [apply total_ReferenceField_validate|]. intros e.
  apply total_bind; [apply total_extend_errors | intros; apply IH].
Qed.

Lemma total_is_valid : total is_valid.
Proof.
  unfold is_valid.
  apply total_bind; [intros s; by eexists|]. intros o.
  apply total_bind; [intros s; by eexists|]. intros _.
  apply total_bind; [apply total_validate_attributes|]. intros _.
  apply total_bind; [apply total_validate_references|]. intros _.
  apply total_bind; [intros s; by eexists|]. intros o'.
  apply total_bind; [apply total_extend_errors|]. intros _.
  apply total_bind; [|intros; apply total_ret].
  intros s. unfold errors_get, bind, get_self. cbn.
  destruct (_errors (self s)); by eexists.
Qed.

Lemma total_setattr k v : total (setattr k v).
Proof.
  unfold setattr. apply total_bind; [apply total_get_self|]. intros o.
  destruct (_attributes (__class__ o) !! k) as [a|]; [|intros s; by eexists].
  unfold descriptor_set. destruct (class_of a);
    try (unfold Attribute___set__; apply total_bind; [apply total_get_self|];
         intros o' s; by eexists).
  apply total_raise.
Qed.

Lemma total_refresh _new k v : total (refresh _new k v).
Proof.
  assert (forall b : bool,
            total (if b then bind datetime_now (fun now => setattr k now) else ret tt))
    as Hstep.
  { intros []; [|apply total_ret].
    apply total_bind; [intros s; by eexists | intros; apply total_setattr]. }
  unfold refresh. destruct (class_of v); try apply total_ret.
  all: apply total_bind; [apply Hstep | intros; apply Hstep].
Qed.

Lemma total_storage_loop _new items : forall h, total (storage_loop _new items h).
Proof.
  induction items as [|[k v] rest IH]; intros h; cbn [storage_loop].
  - apply total_ret.
  - apply total_bind; [apply total_refresh|]. intros _.
    apply total_bind; [apply total_getattr|]. intros val.
    apply total_bind; [|intros; apply IH].
    destruct (is_none val); [apply total_ret|].
    apply total_bind; [apply total_lift | intros; apply total_ret].
Qed.
Lemma pipeline_delete_hmset_spec kk h s :
  pipeline_delete_hmset kk h s =
  Some (Ok tt,
        {| self := self s;
           env :=
             if bool_decide (h = ∅)
             then set_db (delete kk (db (env s))) (sent (Redis.DEL kk) (env s))
             else set_db (<[kk := Redis.RHash (redis_encode <$> h)]>
                            (delete kk (db (env s))))
                    (sent (Redis.HMSET kk (redis_encode <$> h))
                       (sent (Redis.DEL kk) (env s))) |}).
Proof.
  unfold pipeline_delete_hmset, bind, db_delete, db_hmset, command. cbn.
  destruct (bool_decide (h = ∅)); [done|]. cbn.
  unfold Redis.hmset, Redis.del. by rewrite lookup_delete_eq.
Qed.

Lemma total__write _new : total (_write _new).
Proof.
  unfold _write. apply total_bind; [apply total_get_self|]. intros o.
  apply total_bind; [apply total_storage_loop|]. intros h.
  apply total_bind; [apply total_key|]. intros kk s.
  rewrite pipeline_delete_hmset_spec. by eexists.
Qed.

(** ** Declared fields *)

Lemma attribute_values_spec c f :
  f ∈ attribute_values c <-> exists k, _attributes c !! k = Some f.
Proof.
  unfold attribute_values, attribute_items. rewrite list_elem_of_fmap. split.
  - intros ([k f'] & -> & Hin). exists k. by apply elem_of_map_to_list in Hin.
  - intros (k & Hk). exists (k, f). split; [done|]. by apply elem_of_map_to_list.
Qed.

Lemma attribute_items_spec c k a :
  (k, a) ∈ attribute_items c <-> _attributes c !! k = Some a.
Proof. unfold attribute_items. by rewrite elem_of_map_to_list. Qed.

Lemma slot_not_id a : name a <> "id" -> slot a <> "_id".
Proof. unfold slot. intros H [= E]. done. Qed.

Lemma wf_Person : wf_class Sample.Person.
Proof.
  split; [|reflexivity].
  assert (map_Forall (fun k a => name a = k) (_attributes Sample.Person)) as H.
  { apply map_Forall_to_list. vm_compute. repeat constructor. }
  exact H.
Qed.


Lemma clear_Person : clear_of_Model Sample.Person.
Proof. split; apply map_Forall_to_list; vm_compute; repeat constructor. Qed.

Lemma clear_Note : clear_of_Model Sample.Note.
Proof. split; apply map_Forall_to_list; vm_compute; repeat constructor. Qed.

Lemma declared_attribute c k a :
  _attributes c !! k = Some a -> declared c k = true.
Proof.
  intros H. unfold declared. rewrite bool_decide_eq_true_2 by eauto. reflexivity.
Qed.



(** A read of a declared field raises [TypeError] and does nothing
    else. *)
Lemma getattr_declared k s :
  declared (__class__ (self s)) k = true ->
  getattr k s = Some (Raise TypeError, s).
Proof. intros H. unfold getattr, bind, get_self. cbn. by rewrite H. Qed.


(** ** Reading a field *)



(** ** Validation *)


Lemma is_valid_from s :
  is_valid s =
  bind (validate_attributes (attribute_values (__class__ (self s)))) (fun _ =>
    bind (validate_references (reference_values (__class__ (self s)))) (fun _ =>
      bind get_self (fun o' =>
        bind (extend_errors (validate_hook (__class__ o') (__dict__ o'))) (fun _ =>
          bind errors_get (fun e =>
            ret (match e with [] => true | _ => false end))))))
    (reset_errors s).
Proof. reflexivity. Qed.




(** ** The hash built for storage *)

(** The refreshing of a date field returns, and changes at most the
    slot of the field. *)
Lemma refresh_Ok _new k v s :
  _attributes (__class__ (self s)) !! k = Some v ->
  exists d, refresh _new k v s =
            Some (Ok tt, {| self := set_dict d (self s); env := env s |}) /\
            forall j, j <> slot v -> d !! j = __dict__ (self s) !! j.
Proof.
  intros Hk.
  assert (forall (b : bool) s0,
            _attributes (__class__ (self s0)) !! k = Some v ->
            class_of v <> CCounter ->
            exists d, (if b then bind datetime_now (fun now => setattr k now) else ret tt) s0 =
                      Some (Ok tt, {| self := set_dict d (self s0); env := env s0 |}) /\
                      forall j, j <> slot v -> d !! j = __dict__ (self s0) !! j)
    as Hstep.
  { intros [] [o w] Hk0 Hc; cbn in Hk0.
    - unfold bind, datetime_now, get_env, ret, setattr, get_self. cbn. rewrite Hk0.
      unfold descriptor_set.
      destruct (class_of v) eqn:E0; try done.
      all: eexists; split; [reflexivity|].
      all: intros j Hj; cbn; by rewrite lookup_insert_ne.
    - exists (__dict__ o). split; [by destruct o | done]. }
  unfold refresh. destruct s as [o w].
  destruct (class_of v) eqn:E;
    try (exists (__dict__ o); split; [by destruct o | done]).
  all: pose proof (fun b s0 H => Hstep b s0 H ltac:(done)) as Hstep'.
  all: destruct (Hstep' auto_now {| self := o; env := w |} Hk) as (d1 & H1 & Hd1).
  all: erewrite bind_ok by exact H1.
  all: destruct (Hstep' (auto_now_add && _new) {| self := set_dict d1 o; env := w |} Hk)
         as (d2 & H2 & Hd2).
  all: exists d2; split; [exact H2|].
  all: intros j Hj; rewrite (Hd2 j Hj); exact (Hd1 j Hj).
Qed.

(** The loop stops at the first field, at the read of its value. *)
Lemma storage_loop_raises _new k v rest h s :
  _attributes (__class__ (self s)) !! k = Some v ->
  exists d, storage_loop _new ((k, v) :: rest) h s =
            Some (Raise TypeError, {| self := set_dict d (self s); env := env s |}) /\
            forall j, j <> slot v -> d !! j = __dict__ (self s) !! j.
Proof.
  intros Hk. destruct (refresh_Ok _new k v s Hk) as (d & Hr & Hd).
  exists d. split; [|exact Hd]. cbn [storage_loop]. erewrite bind_ok by exact Hr.
  apply bind_raise. apply getattr_declared. cbn.
  exact (declared_attribute _ _ _ Hk).
Qed.

Lemma attribute_items_nonempty c k a :
  _attributes c !! k = Some a ->
  exists k0 a0 rest, attribute_items c = (k0, a0) :: rest /\ _attributes c !! k0 = Some a0.
Proof.
  intros H. apply attribute_items_spec in H.
  destruct (attribute_items c) as [|[k0 a0] rest] eqn:E; [by apply elem_of_nil in H|].
  exists k0, a0, rest. split; [done|]. apply attribute_items_spec. rewrite E. by left.
Qed.

Lemma attribute_items_empty c :
  _attributes c = ∅ -> attribute_items c = [].
Proof. intros H. unfold attribute_items. rewrite H. apply map_to_list_empty. Qed.

(** What [_get_data_for_storage] and [_write] do for a record whose
    class has a field: they raise [TypeError] at the first read, having
    sent nothing and changed at most the slot of the first field. *)
Lemma storage_raises _new s k a :
  _attributes (__class__ (self s)) !! k = Some a ->
  exists k0 a0 d,
    _attributes (__class__ (self s)) !! k0 = Some a0 /\
    (forall j, j <> slot a0 -> d !! j = __dict__ (self s) !! j) /\
    _get_data_for_storage _new s =
      Some (Raise TypeError, {| self := set_dict d (self s); env := env s |}) /\
    _write _new s =
      Some (Raise TypeError, {| self := set_dict d (self s); env := env s |}).
Proof.
  intros Ha.
  destruct (attribute_items_nonempty _ _ _ Ha) as (k0 & a0 & rest & E & H0).
  destruct (storage_loop_raises _new k0 a0 rest ∅ s H0) as (d & Hl & Hd).
  exists k0, a0, d. split; [exact H0|]. split; [exact Hd|].
  unfold _get_data_for_storage, _write.
  erewrite !bind_ok by reflexivity. rewrite E. split; [exact Hl|].
  by apply bind_raise.
Qed.

(** And for a record whose class has none: the hash is empty, and
    [_write] sends the [DEL] of the record key. *)
Lemma storage_of_no_field _new s :
  _attributes (__class__ (self s)) = ∅ ->
  _get_data_for_storage _new s = Some (Ok ∅, s) /\
  _write _new s = bind (key None) (fun kk => db_delete kk) s.
Proof.
  intros H. unfold _get_data_for_storage, _write.
  erewrite !bind_ok by reflexivity. rewrite (attribute_items_empty _ H).
  split; [reflexivity|]. cbn [storage_loop]. erewrite bind_ok by reflexivity.
  apply bind_ext. intros kk s1. rewrite pipeline_delete_hmset_spec.
  rewrite bool_decide_eq_true_2 by done. reflexivity.
Qed.





(** ** The batch manager *)

(** C8. When the response of the store is a failure, each of the five
    asynchronous operations appends the error to the log, passes [None]
    or the empty list to the callback, changes nothing else and raises
    nothing. *)
Theorem C8_async_failure_is_logged_and_empty (e : string) (s : state) :
  exists s',
    errlog (env s') = (errlog (env s) ++ [e])%list /\
    self s' = self s /\
    db (env s') = db (env s) /\
    clock (env s') = clock (env s) /\
    async_mode (env s') = async_mode (env s) /\
    oplog (env s') = oplog (env s) /\
    Manager.get_by_id_async_on_response (Failure e) s = Some (Ok None, s') /\
    (forall loads c ids,
       Manager.get_by_ids_async_on_response loads c ids (Manager.PFailure e) s
       = Some (Ok [], s')) /\
    Manager.get_sort_list_async_on_response (Failure e) s = Some (Ok [], s') /\
    Manager.get_set_async_on_response (Failure e) s = Some (Ok [], s') /\
    Manager.get_sets_async_on_response (Failure e) s = Some (Ok [], s').
Proof.
  exists {| self := self s; env := logged e (env s) |}. repeat split.
Qed.

(** ** Hydration *)

Lemma total_descriptor_set a v : total (descriptor_set a v).
Proof.
  unfold descriptor_set. destruct (class_of a);
    try (unfold Attribute___set__; apply total_bind; [apply total_get_self|];
         intros o' s; by eexists).
  apply total_raise.
Qed.


(** The loop does not get past a counter the reply names. *)
Lemma hydrate_loop_raises_on_counter d a attrs : forall s,
  a ∈ attrs -> class_of a = CCounter -> is_Some (d !! name a) ->
  exists e s', hydrate_loop attrs d s = Some (Raise e, s').
Proof.
  induction attrs as [|att rest IH]; intros s Hin Hc Hd.
  - by apply elem_of_nil in Hin.
  - cbn [hydrate_loop].
    set (step := match d !! name att with
                 | Some (Some t) =>
                     bind (lift (typecast_for_read att (VStr t)))
                       (fun v => descriptor_set att v)
                 | Some None => descriptor_set att VNone
                 | None => ret tt
                 end).
    assert (total step) as Ht.
    { subst step. destruct (d !! name att) as [[t|]|].
      - apply total_bind; [apply total_lift | intros; apply total_descriptor_set].
      - apply total_descriptor_set.
      - apply total_ret. }
    destruct (Ht s) as [[[[]|e] s1] Hs].
    + erewrite bind_ok by exact Hs.
      apply elem_of_cons in Hin as [<- | Hin]; [|by apply IH].
      exfalso. subst step. destruct Hd as [x Hx]. rewrite Hx in Hs.
      unfold descriptor_set in Hs. rewrite Hc in Hs.
      destruct x as [t|]; [|done].
      apply bind_ok_inv in Hs as (v & s2 & _ & Hs). done.
    + erewrite bind_raise by exact Hs. eauto.
Qed.

(** X20: hydrating an instance from a reply that names a counter of the
    class never returns: when the loop reaches the counter it raises
    [AttributeError], because a counter cannot be set, unless an
    earlier cast has raised already. [get_by_id_async], which asks for
    every attribute, so never hands a record with a counter to its
    callback: its [on_response] passes [None] or raises. *)
Theorem hydration_raises_on_counter
    (d : reply_dict) (k : string) (a : attribute) (s : state) :
  _attributes (__class__ (self s)) !! k = Some a ->
  name a = k -> class_of a = CCounter ->
  is_Some (d !! k) ->
  (exists e s', Model_typecast_for_read (Some d) s = Some (Raise e, s')) /\
  ((exists s', Manager.get_by_id_async_on_response (Reply d) s = Some (Ok None, s')) \/
   exists e s', Manager.get_by_id_async_on_response (Reply d) s = Some (Raise e, s')).
Proof.
  intros Ha Hn Hc Hd.
  assert (exists e s', Model_typecast_for_read (Some d) s = Some (Raise e, s'))
    as (e & s' & H).
  { unfold Model_typecast_for_read. erewrite bind_ok by reflexivity.
    destruct (hydrate_loop_raises_on_counter d a
                (attribute_values (__class__ (self s))) s) as (e & s' & H).
    - apply attribute_values_spec. eauto.
    - done.
    - by rewrite Hn.
    - exists e, s'. by erewrite bind_raise by exact H. }
  split; [eauto|].
  unfold Manager.get_by_id_async_on_response.
  destruct (any_reply_value d).
  - right. exists e, s'. by erewrite bind_raise by exact H.
  - left. by eexists.
Qed.

Lemma hydration_raises_on_counter_witness :
  let s := {| self := new_instance Sample.Person; env := Sample.empty_world 0 true |} in
  let d : reply_dict := {[ "name" := Some "ok"; "hits" := Some "5" ]} in
  (exists e s', Model_typecast_for_read (Some d) s = Some (Raise e, s')) /\
  ((exists s', Manager.get_by_id_async_on_response (Reply d) s = Some (Ok None, s')) \/
   exists e s', Manager.get_by_id_async_on_response (Reply d) s = Some (Raise e, s')).
Proof.
  intros s d.
  apply (hydration_raises_on_counter d "hits"
           (Counter___init__ "hits" false None None) s);
    [reflexivity | reflexivity | reflexivity | by eexists].
Defined.

(** ** What hydration keeps *)












(** ** The batch read *)





(** ** Equality and hash *)





(** Two classes of one name are two classes: a [Person] does not equal
    the record of the same key of another class called [Person]. *)
Example namesake_is_not_equal :
  let s := {| self := Sample.person "1"; env := Sample.empty_world 0 false |} in
  __name__ Sample.Namesake = __name__ Sample.Person /\
  key None {| self := Sample.namesake "1"; env := Sample.empty_world 0 false |} =
    Some (Ok "Person:1",
          {| self := Sample.namesake "1"; env := Sample.empty_world 0 false |}) /\
  key None s = Some (Ok "Person:1", s) /\
  __eq__ (Record_ (Sample.namesake "1")) s = Some (Ok false, s).
Proof. vm_compute. auto. Qed.

(** ** The mutex *)

Example lock_timeout_ex :
  Mutex.lock_timeout (Sample.empty_world 1700000000250000 false) = "1700000001.250000".
Proof. vm_compute. reflexivity. Qed.

Example lock_has_expired_ex :
  Mutex.lock_has_expired "1700000001.250000" (Sample.empty_world 1700000001250000 false) = Ok false /\
  Mutex.lock_has_expired "1700000001.250000" (Sample.empty_world 1700000001250001 false) = Ok true.
Proof. vm_compute. auto. Qed.

Lemma play_all_reachable ms : forall s s',
  Contention.play_all ms s = Some s' -> Contention.reachable s s'.
Proof.
  induction ms as [|m rest IH] using rev_ind; intros s s' H.
  - injection H as <-. constructor.
  - assert (forall l1 l2 x, Contention.play_all (l1 ++ l2) x =
              match Contention.play_all l1 x with
              | Some y => Contention.play_all l2 y
              | None => None
              end) as Happ.
    { induction l1 as [|a l1 IHl]; intros l2 x; [done|]. cbn.
      destruct (Contention.play a x); [apply IHl | done]. }
    rewrite Happ in H.
    destruct (Contention.play_all rest s) as [s1|] eqn:H1; [|done].
    cbn in H. destruct (Contention.play m s1) as [s2|] eqn:H2; [|done].
    injection H as <-.
    eapply Contention.reach_step; [by apply IH|].
    destruct m as [| |dt]; cbn in H2.
    + destruct (Contention.advance _ _) as [[wr w]|] eqn:Ha; [|done].
      injection H2 as <-. by apply Contention.step_first.
    + destruct (Contention.advance _ _) as [[wr w]|] eqn:Ha; [|done].
      injection H2 as <-. by apply Contention.step_second.
    + destruct (0 <=? dt)%Z eqn:Hdt; [|done].
      injection H2 as <-. apply Contention.step_time. by apply Z.leb_le.
Qed.

(** C9 as stated fails: two synchronous saves of one record can both be
    between [lock] and [unlock]. The first writer acquires the lock at
    time 1.0 with the value [2.000000]; it is still before its write at
    time 2.5, when the second writer finds the value expired, replaces
    it and proceeds. *)
Lemma C9_expired_lock_lets_writes_interleave :
  ~ Contention.never_interleave
      (Contention.start (Sample.empty_world 1000000 false)
         (Sample.person "1") (Sample.person "1")).
Proof.
  intros H.
  destruct (Contention.play_all
              [Contention.First; Contention.Wait 1500000;
               Contention.Second; Contention.Second; Contention.Second]
              (Contention.start (Sample.empty_world 1000000 false)
                 (Sample.person "1") (Sample.person "1")))
    as [s|] eqn:Hrun; [|vm_compute in Hrun; discriminate Hrun].
  apply (H s (play_all_reachable _ _ _ Hrun)).
  vm_compute in Hrun. injection Hrun as <-. split; reflexivity.
Qed.

Lemma lock_step_acquires k p w w' :
  p <> Mutex.Acquired ->
  Mutex.lock_step k p w = (Ok Mutex.Acquired, w') ->
  db w' !! k = Some (Redis.RString (Mutex.lock_timeout w)) /\
  (p = Mutex.AtSetnx /\ db w !! k = None \/
   p = Mutex.AtGetset /\
   (db w !! k = None \/
    exists old, db w !! k = Some (Redis.RString old) /\
      (Text.is_empty old = true \/ Mutex.lock_has_expired old w = Ok true))).
Proof.
  intros Hp H. destruct p as [| | |u|]; [| | | |done].
  - cbn in H. unfold Redis.setnx in H. cbn in H.
    destruct (db w !! k) eqn:Hk; [done|].
    injection H as <-. cbn. rewrite lookup_insert_eq. auto.
  - cbn in H. unfold Redis.get in H. cbn in H.
    destruct (db w !! k) as [[lock|]|]; [| done..].
    destruct (Text.is_empty lock); [done|].
    change (Mutex.lock_has_expired lock (sent (Redis.GET k) w))
      with (Mutex.lock_has_expired lock w) in H.
    by destruct (Mutex.lock_has_expired lock w) as [[]|].
  - cbn in H. unfold Redis.getset in H. cbn in H.
    destruct (db w !! k) as [[lock|]|] eqn:Hk; [| done |].
    + match type of H with
      | context [Mutex.lock_has_expired lock ?w2] =>
          change (Mutex.lock_has_expired lock w2)
            with (Mutex.lock_has_expired lock w) in H
      end.
      destruct (Text.is_empty lock) eqn:He.
      * injection H as <-. cbn. rewrite lookup_insert_eq.
        split; [done|]. right. split; [done|]. right. eauto.
      * destruct (Mutex.lock_has_expired lock w) as [[]|] eqn:Hx; [|done..].
        injection H as <-. cbn. rewrite lookup_insert_eq.
        split; [done|]. right. split; [done|]. right. eauto.
    + injection H as <-. cbn. rewrite lookup_insert_eq. auto.
  - cbn in H. done.
Qed.

(** C9, as the code has it. [lock] returns only from a [setnx] that
    found the lock key absent, or from a [getset] that replaced nothing,
    an empty value or an expired value; either way the key then holds
    the text of now + 1.0. A value read by [get] that has not expired
    makes the acquirer sleep 0.5 and start over. [unlock] deletes the
    lock key, whatever it holds. Of two writers of one record, one
    comes to hold the lock only in a step at which the lock key was
    absent or held an empty or expired value: it waits for the release
    or for the expiry, not for the other writer to finish. *)
Theorem C9_lock_acquisition (k : string) (w : world) :
  (forall p w', p <> Mutex.Acquired ->
     Mutex.lock_step k p w = (Ok Mutex.Acquired, w') ->
     db w' !! k = Some (Redis.RString (Mutex.lock_timeout w)) /\
     (p = Mutex.AtSetnx /\ db w !! k = None \/
      p = Mutex.AtGetset /\
      (db w !! k = None \/
       exists old, db w !! k = Some (Redis.RString old) /\
         (Text.is_empty old = true \/ Mutex.lock_has_expired old w = Ok true)))) /\
  (forall lock, db w !! k = Some (Redis.RString lock) ->
     Text.is_empty lock = false ->
     Mutex.lock_has_expired lock w = Ok false ->
     Mutex.lock_step k Mutex.AtSetnx w
       = (Ok Mutex.AtGet, sent (Redis.SETNX k (Mutex.lock_timeout w)) w) /\
     Mutex.lock_step k Mutex.AtGet w
       = (Ok (Mutex.Sleeping (clock w + 500000)), sent (Redis.GET k) w) /\
     forall w2, Mutex.lock_step k (Mutex.Sleeping (clock w + 500000)) w2
       = (Ok Mutex.AtSetnx, set_clock (Z.max (clock w2) (clock w + 500000)) w2)) /\
  (forall o, key (Some "_lock") {| self := o; env := w |}
             = Some (Ok k, {| self := o; env := w |}) ->
     Mutex.unlock {| self := o; env := w |}
     = Some (Ok tt, {| self := o;
                       env := set_db (delete k (db w)) (sent (Redis.DEL k) w) |})) /\
  (forall s s', Contention.sys_step s s' ->
     Contention.shared s = w ->
     Contention.holds (Contention.at_ (Contention.second s)) = false ->
     Contention.holds (Contention.at_ (Contention.second s')) = true ->
     Contention.lock_free (Contention.second s) w).
Proof.
  split; [intros p w'; apply lock_step_acquires|]. split; [|split].
  - intros lock Hk He Hx. repeat split.
    + cbn. unfold Redis.setnx. cbn. by rewrite Hk.
    + cbn. unfold Redis.get. cbn. rewrite Hk, He.
      change (Mutex.lock_has_expired lock (sent (Redis.GET k) w))
        with (Mutex.lock_has_expired lock w). by rewrite Hx.
  - intros o Hk. unfold Mutex.unlock, bind. rewrite Hk. reflexivity.
  - intros s s' Hstep Hw Hno Hyes.
    destruct Hstep as [s wr w1 Ha | s wr w1 Ha | s dt Hdt];
      cbn in Hyes; [congruence | | congruence].
    unfold Contention.advance in Ha.
    destruct (Contention.awake _ _); [|done].
    destruct (Contention.second s) as [st o] eqn:Hsec. cbn in *.
    destruct st as [p| |]; cbn in Hno; [| done |].
    + assert (p <> Mutex.Acquired) as Hp by (intros ->; done).
      assert (Contention.writer_step (Contention.Entering p) =
              Contention.settle (Mutex.step p) Contention.Entering Contention.Finished)
        as Hws by (by destruct p).
      rewrite Hws in Ha. unfold Contention.settle, Mutex.step, bind in Ha.
      destruct (key (Some "_lock") {| self := o; env := Contention.shared s |})
        as [[[kk|e] s1]|] eqn:Hkey; [| |done].
      * pose proof (key_pure _ _ _ _ Hkey) as ->. cbn in Ha.
        destruct (Mutex.lock_step kk p (Contention.shared s)) as [[p'|e] w2] eqn:Hls;
          cbn in Ha; injection Ha as <- <-; cbn in Hyes; [|done].
        destruct p'; try done.
        destruct (lock_step_acquires _ _ _ _ Hp Hls) as [_ Hfree].
        subst w. exists kk. split; [done|].
        destruct Hfree as [[_ ?] | [_ ?]]; auto.
      * cbn in Ha. injection Ha as <- <-. done.
    + cbn in Ha. injection Ha as <- <-. done.
Qed.

Lemma C9_lock_acquisition_witness :
  let w := Sample.empty_world 1000000 false in
  let w' := set_db {[ "Person:1:_lock" := Redis.RString "2.000000" ]}
              (sent (Redis.SETNX "Person:1:_lock" "2.000000") w) in
  Mutex.AtSetnx <> Mutex.Acquired /\
  Mutex.lock_step "Person:1:_lock" Mutex.AtSetnx w = (Ok Mutex.Acquired, w') /\
  db w' !! "Person:1:_lock" = Some (Redis.RString (Mutex.lock_timeout w)) /\
  Mutex.lock 1 {| self := Sample.person "1"; env := w |}
  = Some (Ok tt, {| self := Sample.person "1"; env := w' |}).
Proof.
  intros w w'.
  assert (Mutex.AtSetnx <> Mutex.Acquired) as Hne by discriminate.
  assert (Mutex.lock_step "Person:1:_lock" Mutex.AtSetnx w = (Ok Mutex.Acquired, w'))
    as Hstep by (vm_compute; reflexivity).
  split; [exact Hne|]. split; [exact Hstep|]. split.
  - exact (proj1 (proj1 (C9_lock_acquisition "Person:1:_lock" w)
                    Mutex.AtSetnx w' Hne Hstep)).
  - vm_compute. reflexivity.
Defined.

(** * Further properties of the code *)

(** ** Casts *)

(** X1: whatever value a boolean field is given, the text stored for it
    reads back as the truth value of that value. *)
Theorem boolean_field_reads_back_truth (v : pyval) :
  rbind (BooleanField.typecast_for_storage v) BooleanField.typecast_for_read
  = Ok (VBool (truthy v)).
Proof.
  unfold BooleanField.typecast_for_storage. by destruct (truthy v).
Qed.

Lemma py_int_not_TypeError v :
  py_int v = Raise TypeError ->
  v = VNone \/ (exists d, v = VDatetime d) \/ (exists d, v = VDate d).
Proof.
  destruct v as [|b|n|x|s|s|d|d]; cbn; try (by eauto); try discriminate.
  - destruct x; discriminate.
  - intros H. by apply int_of_str_raises in H.
  - intros H. by apply int_of_str_raises in H.
Qed.

(** X2: the read cast of a datetime or date field returns [None] for
    exactly the values [int] rejects with a [TypeError]: [None], a
    datetime and a date. For text and numbers it returns a datetime
    (a date) or raises. *)
Theorem date_read_cast_None (v : pyval) :
  (DateTimeField.typecast_for_read v = Ok VNone <->
   v = VNone \/ (exists d, v = VDatetime d) \/ (exists d, v = VDate d)) /\
  (DateField.typecast_for_read v = Ok VNone <->
   v = VNone \/ (exists d, v = VDatetime d) \/ (exists d, v = VDate d)).
Proof.
  unfold DateTimeField.typecast_for_read, DateField.typecast_for_read,
    Calendar.datetime_fromtimestamp, Calendar.date_fromtimestamp.
  split; (split; [| by intros [-> | [[d ->] | [d ->]]]]).
  all: destruct (py_int v) as [n|e] eqn:E; cbn.
  all: try (destruct (Calendar.in_range n); cbn; discriminate).
  all: destruct e; try discriminate; intros _; by apply py_int_not_TypeError.
Qed.

(** X3: of the values an integer field accepts in validation, an [int]
    reads back as itself, and a [bool] is stored as [True] or [False],
    which the read cast rejects with a [ValueError]. *)
Theorem integer_field_accepted_values (v : pyval) :
  IntegerField.acceptable v = true ->
  rbind (IntegerField.typecast_for_storage v) IntegerField.typecast_for_read =
  match v with
  | VInt n => Ok (VInt n)
  | _ => Raise ValueError
  end.
Proof.
  destruct v as [|b|n|x|s|s|d|d]; try discriminate; intros _.
  - by destruct b.
  - unfold IntegerField.typecast_for_storage, IntegerField.typecast_for_read.
    cbn. by rewrite int_of_str_of_int.
Qed.

Lemma integer_field_accepted_values_witness :
  IntegerField.acceptable (VBool true) = true /\
  rbind (IntegerField.typecast_for_storage (VBool true)) IntegerField.typecast_for_read
  = Raise ValueError.
Proof.
  split; [reflexivity|].
  exact (integer_field_accepted_values (VBool true) eq_refl).
Defined.

(** ** Identities and counters *)

Lemma int_of_value_Some s n :
  Redis.int_of_value s = Some n ->
  Text.int_of_str s = Ok n /\ s = Text.str_of_int n /\
  (- 2 ^ 63 <= n < 2 ^ 63)%Z.
Proof.
  unfold Redis.int_of_value. destruct (Text.int_of_str s) as [m|e]; [|done].
  destruct (String.eqb (Text.str_of_int m) s) eqn:E; [|done].
  destruct (- 2 ^ 63 <=? m)%Z eqn:E1; [|done].
  destruct (m <? 2 ^ 63)%Z eqn:E2; [|done].
  cbn. intros [= ->]. apply String.eqb_eq in E.
  apply Z.leb_le in E1. apply Z.ltb_lt in E2. done.
Qed.

Lemma int_of_value_str_of_int n :
  (- 2 ^ 63 <= n < 2 ^ 63)%Z ->
  Redis.int_of_value (Text.str_of_int n) = Some n.
Proof.
  intros [H1 H2]. unfold Redis.int_of_value.
  rewrite int_of_str_of_int, String.eqb_refl.
  apply Z.leb_le in H1. apply Z.ltb_lt in H2. by rewrite H1, H2.
Qed.

Lemma str_of_int_inj n m : Text.str_of_int n = Text.str_of_int m -> n = m.
Proof.
  intros H. pose proof (int_of_str_of_int n) as Hn.
  rewrite H, int_of_str_of_int in Hn. by injection Hn.
Qed.

(** What a successful [INCR] leaves at the key. *)
Lemma Redis_incr_Ok ks k n ks' :
  Redis.incr ks k = Ok (n, ks') ->
  ks' = <[k := Redis.RString (Text.str_of_int n)]> ks /\
  (- 2 ^ 63 <= n < 2 ^ 63)%Z /\
  (ks !! k = None /\ n = 1 \/
   ks !! k = Some (Redis.RString (Text.str_of_int (n - 1)))).
Proof.
  unfold Redis.incr. destruct (ks !! k) as [[s|h]|] eqn:E; [| done |].
  - destruct (Redis.int_of_value s) as [m|] eqn:Em; [|done].
    apply int_of_value_Some in Em as (_ & -> & Hr).
    destruct (m + 1 <? 2 ^ 63)%Z eqn:E2; [|done].
    apply Z.ltb_lt in E2. intros [= <- <-].
    split; [done|]. split; [lia|]. right. by replace (m + 1 - 1)%Z with m by lia.
  - intros [= <- <-]. split; [done|]. split; [lia|]. by left.
Qed.

Lemma _initialize_id_Ok s s' :
  _initialize_id s = Some (Ok tt, s') ->
  exists n,
    Redis.incr (db (env s)) (Key_getitem (_key (__class__ (self s))) "id")
      = Ok (n, db (env s')) /\
    __class__ (self s') = __class__ (self s) /\
    __dict__ (self s') = <["_id" := VStr (Text.str_of_int n)]> (__dict__ (self s)) /\
    oplog (env s') =
      (oplog (env s) ++ [Redis.INCR (Key_getitem (_key (__class__ (self s))) "id")])%list.
Proof.
  unfold _initialize_id, bind, get_self, db_incr, command. cbn.
  destruct (Redis.incr _ _) as [[n ks]|e] eqn:E; [|done].
  unfold id_set, bind, lift, get_self, put_self. cbn.
  intros [= <-]. by exists n.
Qed.

(** X8: [_initialize_id] sends one [INCR] of the key [<prefix>:id] and
    takes the reply, as decimal text, for the identity: [1] when the key
    is not there, one more than the number the key holds otherwise. *)
Theorem initialize_id_takes_next_number (s : state) (n : Z) :
  let k := Key_getitem (_key (__class__ (self s))) "id" in
  (db (env s) !! k = None /\ n = 0%Z) \/
  (db (env s) !! k = Some (Redis.RString (Text.str_of_int n)) /\
   (- 2 ^ 63 <= n < 2 ^ 63 - 1)%Z) ->
  _initialize_id s =
  Some (Ok tt,
        {| self := set_dict (<["_id" := VStr (Text.str_of_int (n + 1))]>
                               (__dict__ (self s))) (self s);
           env := set_db (<[k := Redis.RString (Text.str_of_int (n + 1))]> (db (env s)))
                    (sent (Redis.INCR k) (env s)) |}).
Proof.
  intros k H.
  assert (Redis.incr (db (env s)) k
          = Ok ((n + 1)%Z, <[k := Redis.RString (Text.str_of_int (n + 1))]> (db (env s))))
    as Hincr.
  { unfold Redis.incr. destruct H as [[-> ->] | [-> Hr]]; [done|].
    rewrite int_of_value_str_of_int by lia.
    assert ((n + 1 <? 2 ^ 63)%Z = true) as -> by (apply Z.ltb_lt; lia). done. }
  unfold _initialize_id, bind, get_self, db_incr, command. cbn.
  fold k. by rewrite Hincr.
Qed.

Lemma initialize_id_takes_next_number_witness :
  _initialize_id {| self := Sample.nobody; env := Sample.empty_world 0 false |} =
  Some (Ok tt,
        {| self := Sample.person "1";
           env := set_db {[ "Person:id" := Redis.RString "1" ]}
                    (sent (Redis.INCR "Person:id") (Sample.empty_world 0 false)) |}).
Proof.
  exact (initialize_id_takes_next_number
           {| self := Sample.nobody; env := Sample.empty_world 0 false |} 0
           (or_introl (conj eq_refl eq_refl))).
Defined.

(** X9: two instances of one key prefix that are given their identities
    one after the other get different identities. *)
Theorem successive_identities_differ (o1 o2 : instance) (w : world) (s1 s2 : state) :
  _key (__class__ o1) = _key (__class__ o2) ->
  _initialize_id {| self := o1; env := w |} = Some (Ok tt, s1) ->
  _initialize_id {| self := o2; env := env s1 |} = Some (Ok tt, s2) ->
  exists i1 i2,
    __dict__ (self s1) !! "_id" = Some (VStr i1) /\
    __dict__ (self s2) !! "_id" = Some (VStr i2) /\
    i1 <> i2.
Proof.
  intros Hk H1 H2.
  apply _initialize_id_Ok in H1 as (n1 & Hi1 & _ & Hd1 & _).
  apply _initialize_id_Ok in H2 as (n2 & Hi2 & _ & Hd2 & _).
  cbn in Hi1, Hi2, Hd1, Hd2. rewrite <- Hk in Hi2.
  apply Redis_incr_Ok in Hi1 as (Hdb1 & Hr1 & _).
  apply Redis_incr_Ok in Hi2 as (_ & _ & Hprev).
  rewrite Hdb1, lookup_insert_eq in Hprev.
  exists (Text.str_of_int n1), (Text.str_of_int n2).
  rewrite Hd1, Hd2, !lookup_insert_eq. split; [done|]. split; [done|].
  intros E. apply str_of_int_inj in E. subst n2.
  destruct Hprev as [[? _] | Hprev]; [done|].
  injection Hprev as Hprev. apply str_of_int_inj in Hprev. lia.
Qed.

Lemma successive_identities_differ_witness :
  exists i1 i2 s1 s2,
    _initialize_id {| self := Sample.nobody; env := Sample.empty_world 0 false |}
      = Some (Ok tt, s1) /\
    _initialize_id {| self := Sample.nobody; env := env s1 |} = Some (Ok tt, s2) /\
    __dict__ (self s1) !! "_id" = Some (VStr i1) /\
    __dict__ (self s2) !! "_id" = Some (VStr i2) /\
    i1 <> i2.
Proof.
  pose (w := Sample.empty_world 0 false).
  pose (s1 := {| self := Sample.person "1";
                 env := set_db {[ "Person:id" := Redis.RString "1" ]}
                          (sent (Redis.INCR "Person:id") w) |}).
  pose (s2 := {| self := Sample.person "2";
                 env := set_db {[ "Person:id" := Redis.RString "2" ]}
                          (sent (Redis.INCR "Person:id") (env s1)) |}).
  assert (_initialize_id {| self := Sample.nobody; env := w |} = Some (Ok tt, s1))
    as H1 by reflexivity.
  assert (_initialize_id {| self := Sample.nobody; env := env s1 |} = Some (Ok tt, s2))
    as H2 by reflexivity.
  destruct (successive_identities_differ Sample.nobody Sample.nobody w s1 s2
              eq_refl H1 H2) as (i1 & i2 & Hi1 & Hi2 & Hne).
  exists i1, i2, s1, s2.
  exact (conj H1 (conj H2 (conj Hi1 (conj Hi2 Hne)))).
Defined.

(** ** Counters *)

Lemma Redis_hincrby_Ok ks k f amount n ks' :
  Redis.hincrby ks k f amount = Ok (n, ks') ->
  exists h,
    (ks !! k = None /\ h = ∅ \/ ks !! k = Some (Redis.RHash h)) /\
    ks' = <[k := Redis.RHash (<[f := Text.str_of_int n]> h)]> ks /\
    (h !! f = None /\ n = amount \/
     exists m, h !! f = Some (Text.str_of_int m) /\ n = (m + amount)%Z /\
               (- 2 ^ 63 <= m < 2 ^ 63)%Z) /\
    (- 2 ^ 63 <= n < 2 ^ 63)%Z /\
    (- 2 ^ 63 <= amount < 2 ^ 63)%Z.
Proof.
  unfold Redis.hincrby.
  destruct (- 2 ^ 63 <=? amount)%Z eqn:A1; [|done].
  destruct (amount <? 2 ^ 63)%Z eqn:A2; [|done].
  apply Z.leb_le in A1. apply Z.ltb_lt in A2. cbn [andb negb].
  assert (forall h,
    match
      match h !! f with
      | Some s => option_map (fun n => (n + amount)%Z) (Redis.int_of_value s)
      | None => Some amount
      end
    with
    | Some n =>
        if (- 2 ^ 63 <=? n)%Z && (n <? 2 ^ 63)%Z
        then Ok (n, <[k := Redis.RHash (<[f := Text.str_of_int n]> h)]> ks)
        else Raise ResponseError
    | None => Raise ResponseError
    end = Ok (n, ks') ->
    ks' = <[k := Redis.RHash (<[f := Text.str_of_int n]> h)]> ks /\
    (h !! f = None /\ n = amount \/
     exists m, h !! f = Some (Text.str_of_int m) /\ n = (m + amount)%Z /\
               (- 2 ^ 63 <= m < 2 ^ 63)%Z) /\
    (- 2 ^ 63 <= n < 2 ^ 63)%Z /\
    (- 2 ^ 63 <= amount < 2 ^ 63)%Z) as Hh.
  { intros h H.
    destruct (h !! f) as [t|] eqn:Et.
    - destruct (Redis.int_of_value t) as [m|] eqn:Em; [|done]. cbn in H.
      apply int_of_value_Some in Em as (_ & -> & Hr).
      destruct (- 2 ^ 63 <=? m + amount)%Z eqn:E1; [|done].
      destruct (m + amount <? 2 ^ 63)%Z eqn:E2; [|done].
      cbn in H. injection H as <- <-.
      apply Z.leb_le in E1. apply Z.ltb_lt in E2.
      split; [done|]. split; [right; by exists m | done].
    - destruct (- 2 ^ 63 <=? amount)%Z eqn:E1; [|done].
      destruct (amount <? 2 ^ 63)%Z eqn:E2; [|done].
      cbn in H. injection H as <- <-.
      split; [done|]. split; [by left | done]. }
  destruct (ks !! k) as [[t|h]|] eqn:E; [done | |].
  - intros H. exists h. split; [by right|]. by apply Hh.
  - intros H. exists ∅. split; [by left|]. by apply Hh.
Qed.

Lemma incr_Ok att val s s1 :
  incr att val s = Some (Ok tt, s1) ->
  exists kk n ks,
    att ∈ _counters (__class__ (self s)) /\
    key None s = Some (Ok kk, s) /\
    Redis.hincrby (db (env s)) kk att val = Ok (n, ks) /\
    s1 = {| self := self s;
            env := set_db ks (sent (Redis.HINCRBY kk att val) (env s)) |}.
Proof.
  unfold incr. erewrite bind_ok by reflexivity.
  destruct (bool_decide (att ∈ _counters (__class__ (self s)))) eqn:E; [|done].
  apply bool_decide_eq_true in E. intros H.
  apply bind_ok_inv in H as (kk & s0 & Hk & H).
  pose proof (key_pure _ _ _ _ Hk) as ->.
  apply bind_ok_inv in H as (n & s2 & Hh & H). injection H as <-.
  unfold db_hincrby, command in Hh. cbn in Hh.
  destruct (Redis.hincrby (db (env s)) kk att val) as [[n' ks]|e] eqn:Ei; [|done].
  injection Hh as -> <-. by exists kk, n, ks.
Qed.

(** What the store holds for a counter before and after a successful
    [incr]. *)
Lemma incr_stored att val s s1 :
  incr att val s = Some (Ok tt, s1) ->
  exists kk n0,
    att ∈ _counters (__class__ (self s)) /\
    key None s = Some (Ok kk, s) /\
    (Redis.hget (db (env s)) kk att = Ok None /\ n0 = 0%Z \/
     Redis.hget (db (env s)) kk att = Ok (Some (Text.str_of_int n0))) /\
    Redis.hget (db (env s1)) kk att = Ok (Some (Text.str_of_int (n0 + val))) /\
    (forall f, f <> att ->
       Redis.hget (db (env s1)) kk f = Redis.hget (db (env s)) kk f) /\
    (forall k', k' <> kk -> db (env s1) !! k' = db (env s) !! k') /\
    self s1 = self s /\
    oplog (env s1) = (oplog (env s) ++ [Redis.HINCRBY kk att val])%list /\
    (- 2 ^ 63 <= n0 < 2 ^ 63)%Z /\
    (- 2 ^ 63 <= n0 + val < 2 ^ 63)%Z /\
    (- 2 ^ 63 <= val < 2 ^ 63)%Z.
Proof.
  intros H. apply incr_Ok in H as (kk & n & ks & Hin & Hk & Hi & ->).
  apply Redis_hincrby_Ok in Hi as (h & Hdb & -> & Hn & Hr & Hv).
  exists kk, (n - val)%Z. split; [exact Hin|]. split; [exact Hk|].
  cbn [env db set_db sent self oplog].
  assert (Redis.hget (db (env s)) kk att = Ok (h !! att)) as Hget.
  { unfold Redis.hget. destruct Hdb as [[-> ->] | ->]; [by rewrite lookup_empty | done]. }
  split.
  { rewrite Hget. destruct Hn as [[-> ->] | (m & -> & -> & _)].
    - left. split; [done | lia].
    - right. do 3 f_equal. lia. }
  split.
  { unfold Redis.hget. rewrite lookup_insert_eq, lookup_insert_eq.
    do 3 f_equal. lia. }
  split.
  { intros f Hf. unfold Redis.hget at 1. rewrite lookup_insert_eq.
    rewrite lookup_insert_ne by done.
    unfold Redis.hget. destruct Hdb as [[-> ->] | ->]; [by rewrite lookup_empty | done]. }
  split; [intros k' Hk'; by rewrite lookup_insert_ne|].
  split; [done|]. split; [done|].
  split; [|split; [lia | done]].
  destruct Hn as [[_ ->] | (m & _ & -> & Hm)]; lia.
Qed.

(** X10: a successful [incr] adds [val] to the number that the hash of
    the record holds under the name of the counter, [0] when it holds
    none; it sends one [HINCRBY] and touches no other field of the hash
    and no other key of the store. *)
Theorem incr_adds_to_the_stored_counter (att : string) (val : Z) (s s1 : state) :
  incr att val s = Some (Ok tt, s1) ->
  exists kk n0,
    key None s = Some (Ok kk, s) /\
    (Redis.hget (db (env s)) kk att = Ok None /\ n0 = 0%Z \/
     Redis.hget (db (env s)) kk att = Ok (Some (Text.str_of_int n0))) /\
    Redis.hget (db (env s1)) kk att = Ok (Some (Text.str_of_int (n0 + val))) /\
    (forall f, f <> att ->
       Redis.hget (db (env s1)) kk f = Redis.hget (db (env s)) kk f) /\
    (forall k', k' <> kk -> db (env s1) !! k' = db (env s) !! k') /\
    self s1 = self s /\
    oplog (env s1) = (oplog (env s) ++ [Redis.HINCRBY kk att val])%list.
Proof.
  intros H.
  destruct (incr_stored att val s s1 H)
    as (kk & n0 & _ & Hk & H0 & H1 & Hf & Hk' & Hs & Hl & _).
  exists kk, n0. done.
Qed.

Lemma incr_adds_to_the_stored_counter_witness :
  let s := {| self := Sample.person "1"; env := Sample2.stored_world |} in
  exists s1,
    incr "hits" 2 s = Some (Ok tt, s1) /\
    Redis.hget (db (env s)) "Person:1" "hits" = Ok (Some "5") /\
    Redis.hget (db (env s1)) "Person:1" "hits" = Ok (Some "7") /\
    exists kk n0,
      key None s = Some (Ok kk, s) /\
      Redis.hget (db (env s1)) kk "hits" = Ok (Some (Text.str_of_int (n0 + 2))).
Proof.
  intros s.
  destruct (incr "hits" 2 s) as [[[[]|e] s1]|] eqn:H;
    try (exfalso; vm_compute in H; discriminate H).
  destruct (incr_adds_to_the_stored_counter "hits" 2 s s1 H)
    as (kk & n0 & Hk & _ & H1 & _).
  exists s1. split; [reflexivity|]. split; [vm_compute; reflexivity|].
  split.
  - pose proof H as H'. vm_compute in H'. injection H' as <-. vm_compute. reflexivity.
  - exists kk, n0. exact (conj Hk H1).
Defined.

(** A counter whose field holds a number in range can be moved by any
    amount in range that keeps it in range. *)
Lemma incr_succeeds att val s kk m :
  att ∈ _counters (__class__ (self s)) ->
  key None s = Some (Ok kk, s) ->
  Redis.hget (db (env s)) kk att = Ok (Some (Text.str_of_int m)) ->
  (- 2 ^ 63 <= m < 2 ^ 63)%Z -> (- 2 ^ 63 <= m + val < 2 ^ 63)%Z ->
  (- 2 ^ 63 <= val < 2 ^ 63)%Z ->
  exists s1, incr att val s = Some (Ok tt, s1).
Proof.
  intros Hin Hk Hget Hm Hmv Hv.
  unfold incr. erewrite bind_ok by reflexivity.
  rewrite bool_decide_eq_true_2 by done.
  erewrite bind_ok by exact Hk.
  unfold db_hincrby, command, bind. cbn.
  unfold Redis.hget in Hget. unfold Redis.hincrby.
  assert ((- 2 ^ 63 <=? val)%Z = true) as -> by (apply Z.leb_le; lia).
  assert ((val <? 2 ^ 63)%Z = true) as -> by (apply Z.ltb_lt; lia).
  cbn [andb negb].
  destruct (db (env s) !! kk) as [[t|h]|]; try done.
  injection Hget as Hget. rewrite Hget, int_of_value_str_of_int by done. cbn.
  assert ((- 2 ^ 63 <=? m + val)%Z = true) as -> by (apply Z.leb_le; lia).
  assert ((m + val <? 2 ^ 63)%Z = true) as -> by (apply Z.ltb_lt; lia).
  cbn. eauto.
Qed.

(** X11: after a successful [incr] by an amount above [-2^63], the
    [decr] by the same amount succeeds too, and the hash of the record
    then holds under the name of the counter the number it held at
    first, [0] when it held none. *)
Theorem decr_undoes_incr (att : string) (val : Z) (s s1 : state) :
  (- 2 ^ 63 < val)%Z ->
  incr att val s = Some (Ok tt, s1) ->
  exists s2 kk n0,
    decr att val s1 = Some (Ok tt, s2) /\
    key None s = Some (Ok kk, s) /\
    (Redis.hget (db (env s)) kk att = Ok None /\ n0 = 0%Z \/
     Redis.hget (db (env s)) kk att = Ok (Some (Text.str_of_int n0))) /\
    Redis.hget (db (env s2)) kk att = Ok (Some (Text.str_of_int n0)).
Proof.
  intros Hval H.
  destruct (incr_stored att val s s1 H)
    as (kk & n0 & Hin & Hk & H0 & H1 & _ & _ & Hself & _ & Hr0 & Hr1 & Hv).
  assert (key None s1 = Some (Ok kk, s1)) as Hk1.
  { destruct s as [o w], s1 as [o1 w1]. cbn in Hself. subst o1.
    by apply (key_env None o w). }
  assert (exists s2, decr att val s1 = Some (Ok tt, s2)) as [s2 H2].
  { apply (incr_succeeds att (-1 * val) s1 kk (n0 + val)); try done.
    - by rewrite Hself.
    - lia.
    - lia. }
  destruct (incr_stored att (-1 * val) s1 s2 H2)
    as (kk' & n1 & _ & Hk1' & H1' & H3 & _).
  rewrite Hk1 in Hk1'. injection Hk1' as <-.
  assert (n1 = (n0 + val)%Z) as ->.
  { destruct H1' as [[Hn _] | Hn]; rewrite H1 in Hn; [done|].
    injection Hn as Hn. by apply str_of_int_inj in Hn. }
  exists s2, kk, n0. split; [exact H2|]. split; [exact Hk|]. split; [exact H0|].
  rewrite H3. do 3 f_equal. lia.
Qed.

Lemma decr_undoes_incr_witness :
  let s := {| self := Sample.person "1"; env := Sample2.stored_world |} in
  (- 2 ^ 63 < 2)%Z /\
  exists s1 s2,
    incr "hits" 2 s = Some (Ok tt, s1) /\
    decr "hits" 2 s1 = Some (Ok tt, s2) /\
    exists kk n0,
      key None s = Some (Ok kk, s) /\
      Redis.hget (db (env s2)) kk "hits" = Ok (Some (Text.str_of_int n0)).
Proof.
  intros s.
  assert (- 2 ^ 63 < 2)%Z as Hv by (vm_compute; reflexivity).
  split; [exact Hv|].
  destruct (incr "hits" 2 s) as [[[[]|e] s1]|] eqn:H;
    try (exfalso; vm_compute in H; discriminate H).
  destruct (decr_undoes_incr "hits" 2 s s1 Hv H) as (s2 & kk & n0 & H2 & Hk & _ & H3).
  exists s1, s2. split; [reflexivity|]. split; [exact H2|].
  exists kk, n0. exact (conj Hk H3).
Defined.

(** X12: [incr] and [decr] of a name that is not a counter of the class
    raise [ValueError], and on a new instance they raise [MissingID];
    either way nothing is sent to the store. *)
Theorem incr_errors (att : string) (val : Z) (s : state) :
  (att ∉ _counters (__class__ (self s)) ->
   incr att val s = Some (Raise ValueError, s) /\
   decr att val s = Some (Raise ValueError, s)) /\
  (att ∈ _counters (__class__ (self s)) ->
   __dict__ (self s) !! "_id" = None ->
   incr att val s = Some (Raise MissingID, s) /\
   decr att val s = Some (Raise MissingID, s)).
Proof.
  assert (forall v,
    (att ∉ _counters (__class__ (self s)) ->
     incr att v s = Some (Raise ValueError, s)) /\
    (att ∈ _counters (__class__ (self s)) ->
     __dict__ (self s) !! "_id" = None ->
     incr att v s = Some (Raise MissingID, s))) as H.
  { intros v. unfold incr. erewrite bind_ok by reflexivity. split.
    - intros Hn. by rewrite bool_decide_eq_false_2.
    - intros Hin Hid. rewrite bool_decide_eq_true_2 by done.
      destruct s as [o w]. erewrite bind_raise; [done|]. by apply key_new. }
  split.
  - intros Hn. split; [apply H | apply (H (-1 * val)%Z)]; done.
  - intros Hin Hid. split; [apply H | apply (H (-1 * val)%Z)]; done.
Qed.

Lemma incr_errors_witness :
  let s := {| self := Sample.nobody; env := Sample.empty_world 0 false |} in
  (incr "name" 1 s = Some (Raise ValueError, s) /\
   decr "name" 1 s = Some (Raise ValueError, s)) /\
  (incr "hits" 1 s = Some (Raise MissingID, s) /\
   decr "hits" 1 s = Some (Raise MissingID, s)).
Proof.
  intros s. split.
  - apply (proj1 (incr_errors "name" 1 s)).
    apply (bool_decide_unpack _). vm_compute. exact I.
  - apply (proj2 (incr_errors "hits" 1 s)); [|reflexivity].
    apply (bool_decide_unpack _). vm_compute. exact I.
Defined.

(** ** The mutex *)

Lemma step_at s kk p :
  key (Some "_lock") s = Some (Ok kk, s) ->
  Mutex.step p s =
  Some ((Mutex.lock_step kk p (env s)).1,
        {| self := self s; env := (Mutex.lock_step kk p (env s)).2 |}).
Proof.
  intros Hk. unfold Mutex.step. erewrite bind_ok by exact Hk.
  by destruct (Mutex.lock_step kk p (env s)).
Qed.

Lemma unlock_at s kk :
  key (Some "_lock") s = Some (Ok kk, s) ->
  Mutex.unlock s =
  Some (Ok tt, {| self := self s;
                  env := set_db (delete kk (db (env s)))
                           (sent (Redis.DEL kk) (env s)) |}).
Proof. intros Hk. unfold Mutex.unlock. by erewrite bind_ok by exact Hk. Qed.

Lemma run_step fuel p s kk :
  p <> Mutex.Acquired ->
  key (Some "_lock") s = Some (Ok kk, s) ->
  Mutex.run (S fuel) p s =
  match (Mutex.lock_step kk p (env s)).1 with
  | Ok p' =>
      Mutex.run fuel p'
        {| self := self s; env := (Mutex.lock_step kk p (env s)).2 |}
  | Raise e =>
      Some (Raise e, {| self := self s; env := (Mutex.lock_step kk p (env s)).2 |})
  end.
Proof.
  intros Hp Hk.
  assert (Mutex.run (S fuel) p s
          = bind (Mutex.step p) (fun p' => Mutex.run fuel p') s) as ->
    by (by destruct p).
  unfold bind. rewrite (step_at s kk p Hk).
  by destruct (Mutex.lock_step kk p (env s)).1.
Qed.

(** X13: on a lock key that is not in the store, [lock] followed by
    [unlock] sends one [SETNX] and one [DEL] of that key and leaves the
    store, the clock and the instance as they were. *)
Theorem lock_then_unlock_restores_store (fuel : nat) (s : state) (kk : string) :
  key (Some "_lock") s = Some (Ok kk, s) ->
  db (env s) !! kk = None ->
  exists s',
    bind (Mutex.lock (S fuel)) (fun _ => Mutex.unlock) s = Some (Ok tt, s') /\
    self s' = self s /\
    db (env s') = db (env s) /\
    clock (env s') = clock (env s) /\
    oplog (env s') =
      (oplog (env s) ++
       [Redis.SETNX kk (Mutex.lock_timeout (env s)); Redis.DEL kk])%list.
Proof.
  intros Hk Hfree. destruct s as [o w]. cbn in Hfree.
  set (w1 := set_db (<[kk := Redis.RString (Mutex.lock_timeout w)]> (db w))
               (sent (Redis.SETNX kk (Mutex.lock_timeout w)) w)).
  assert (Mutex.lock (S fuel) {| self := o; env := w |}
          = Some (Ok tt, {| self := o; env := w1 |})) as Hl.
  { unfold Mutex.lock. rewrite (run_step _ _ _ kk) by done.
    cbn. unfold Redis.setnx. cbn. rewrite Hfree. cbn.
    by destruct fuel. }
  erewrite bind_ok by exact Hl.
  rewrite (unlock_at _ kk) by (by apply (key_env _ o w)).
  eexists. split; [reflexivity|]. cbn.
  split; [done|]. split; [by apply delete_insert_id|]. split; [done|].
  by rewrite <- app_assoc.
Qed.

Lemma lock_then_unlock_restores_store_witness :
  let s := {| self := Sample.person "1"; env := Sample.empty_world 1000000 false |} in
  exists s',
    bind (Mutex.lock 1) (fun _ => Mutex.unlock) s = Some (Ok tt, s') /\
    self s' = self s /\
    db (env s') = db (env s) /\
    clock (env s') = clock (env s) /\
    oplog (env s') =
      (oplog (env s) ++
       [Redis.SETNX "Person:1:_lock" (Mutex.lock_timeout (env s));
        Redis.DEL "Person:1:_lock"])%list.
Proof.
  intros s.
  exact (lock_then_unlock_restores_store 0 s "Person:1:_lock" eq_refl eq_refl).
Defined.

Lemma run_spins fuel : forall p s kk,
  p = Mutex.AtSetnx \/ p = Mutex.AtGet ->
  key (Some "_lock") s = Some (Ok kk, s) ->
  db (env s) !! kk = Some (Redis.RString "") ->
  Mutex.run fuel p s = None.
Proof.
  induction fuel as [|fuel IH]; intros p s kk Hp Hk Hdb.
  - by destruct Hp as [-> | ->].
  - destruct s as [o w]. cbn in Hdb.
    destruct Hp as [-> | ->]; rewrite (run_step _ _ _ kk) by done.
    + cbn. unfold Redis.setnx. cbn. rewrite Hdb. cbn.
      apply (IH _ _ kk); [by right | by apply (key_env _ o w) | done].
    + cbn. unfold Redis.get. cbn. rewrite Hdb. cbn.
      apply (IH _ _ kk); [by left | by apply (key_env _ o w) | done].
Qed.

(** X14: when the lock key holds the empty string, [lock] never
    returns: [setnx] fails, [get] gives a false value, and the loop
    starts over, whatever the clock. *)
Theorem lock_spins_on_empty_lock_value (fuel : nat) (s : state) (kk : string) :
  key (Some "_lock") s = Some (Ok kk, s) ->
  db (env s) !! kk = Some (Redis.RString "") ->
  Mutex.lock fuel s = None.
Proof. intros Hk Hdb. apply (run_spins fuel _ s kk); auto. Qed.

Lemma lock_spins_on_empty_lock_value_witness :
  let s := {| self := Sample.person "1";
              env := set_db {[ "Person:1:_lock" := Redis.RString "" ]}
                       (Sample.empty_world 1000000 false) |} in
  Mutex.lock 1000 s = None.
Proof.
  intros s.
  exact (lock_spins_on_empty_lock_value 1000 s "Person:1:_lock" eq_refl eq_refl).
Defined.

(** X15: a lock key that holds text which is not a float makes [lock]
    raise what [float] raises, and one that holds a hash makes it raise
    the store's error; the store is unchanged, and one [SETNX] and one
    [GET] were sent. *)
Theorem lock_raises_on_corrupt_lock_value (fuel : nat) (s : state) (kk : string) :
  key (Some "_lock") s = Some (Ok kk, s) ->
  let s' := {| self := self s;
               env := sent (Redis.GET kk)
                        (sent (Redis.SETNX kk (Mutex.lock_timeout (env s))) (env s)) |} in
  (forall v e, db (env s) !! kk = Some (Redis.RString v) ->
     Text.is_empty v = false -> PyFloat.of_str v = Raise e ->
     Mutex.lock (S (S fuel)) s = Some (Raise e, s')) /\
  (forall h, db (env s) !! kk = Some (Redis.RHash h) ->
     Mutex.lock (S (S fuel)) s = Some (Raise ResponseError, s')).
Proof.
  intros Hk s'. destruct s as [o w]. subst s'. cbn [self env].
  assert (forall x, db w !! kk = Some x ->
            Mutex.lock (S (S fuel)) {| self := o; env := w |} =
            Mutex.run (S fuel) Mutex.AtGet
              {| self := o;
                 env := sent (Redis.SETNX kk (Mutex.lock_timeout w)) w |}) as Hfirst.
  { intros x Hx. unfold Mutex.lock. rewrite (run_step _ _ _ kk) by done.
    cbn. unfold Redis.setnx. cbn. rewrite Hx. cbn.
    by destruct w. }
  split.
  - intros v e Hdb Hv He. rewrite (Hfirst _ Hdb).
    rewrite (run_step _ _ _ kk); [|done | by apply (key_env _ o w)].
    cbn. unfold Redis.get. cbn. rewrite Hdb, Hv.
    unfold Mutex.lock_has_expired. by rewrite He.
  - intros h Hdb. rewrite (Hfirst _ Hdb).
    rewrite (run_step _ _ _ kk); [|done | by apply (key_env _ o w)].
    cbn. unfold Redis.get. cbn. by rewrite Hdb.
Qed.

Lemma lock_raises_on_corrupt_lock_value_witness :
  let w := set_db {[ "Person:1:_lock" := Redis.RString "soon" ]}
             (Sample.empty_world 1000000 false) in
  Mutex.lock 2 {| self := Sample.person "1"; env := w |} =
  Some (Raise ValueError,
        {| self := Sample.person "1";
           env := sent (Redis.GET "Person:1:_lock")
                    (sent (Redis.SETNX "Person:1:_lock" (Mutex.lock_timeout w)) w) |}).
Proof.
  intros w.
  exact (proj1 (lock_raises_on_corrupt_lock_value 0
                  {| self := Sample.person "1"; env := w |} "Person:1:_lock" eq_refl)
           "soon" ValueError eq_refl eq_refl eq_refl).
Defined.

(** ** The lock around a write *)

(** A [_write], however it ends, leaves the class and the identity. *)
Lemma _write_identity _new s r s' :
  wf_class (__class__ (self s)) ->
  _write _new s = Some (r, s') ->
  __class__ (self s') = __class__ (self s) /\
  __dict__ (self s') !! "_id" = __dict__ (self s) !! "_id".
Proof.
  intros Hwf H.
  destruct (map_eq_dec_empty (_attributes (__class__ (self s)))) as [He|Hne].
  - destruct (storage_of_no_field _new s He) as [_ H2]. rewrite H2 in H.
    apply bind_inv in H as [(kk & s1 & Hk & H) | (e & Hk & _)].
    + pose proof (key_pure _ _ _ _ Hk) as ->.
      unfold db_delete, command in H. cbn in H. by injection H as _ <-.
    + by pose proof (key_pure _ _ _ _ Hk) as ->.
  - apply map_choose in Hne as (k & a & Ha).
    destruct (storage_raises _new s k a Ha) as (k0 & a0 & d & H0 & Hd & _ & H2).
    rewrite H2 in H. injection H as _ <-. cbn. split; [done|].
    apply Hd. apply not_eq_sym, slot_not_id.
    destruct Hwf as [Hnames Hid]. rewrite (Hnames _ _ H0).
    intros ->. congruence.
Qed.

(** X18: the body of [with Mutex(self): self._write(_new)] ends with
    the lock key deleted whether [_write] returns or raises, and what
    [_write] raises is raised on. *)
Theorem lock_is_released_whatever_write_does (_new : bool) (s : state) (lk : string) :
  wf_class (__class__ (self s)) ->
  key (Some "_lock") s = Some (Ok lk, s) ->
  exists r s1 s',
    _write _new s = Some (r, s1) /\
    try_finally (_write _new) Mutex.unlock s = Some (r, s') /\
    db (env s') !! lk = None /\
    forall k', k' <> lk -> db (env s') !! k' = db (env s1) !! k'.
Proof.
  intros Hwf Hk.
  destruct (total__write _new s) as [[r s1] H].
  destruct (_write_identity _ _ _ _ Hwf H) as [Hc Hi].
  pose proof (key_same_identity _ _ _ _ Hc Hi Hk) as Hk1.
  exists r, s1. eexists. split; [done|].
  unfold try_finally. rewrite H, (unlock_at s1 lk Hk1).
  split; [reflexivity|]. cbn.
  split; [apply lookup_delete_eq|]. intros k' Hk'. by apply lookup_delete_ne.
Qed.

Lemma lock_is_released_whatever_write_does_witness :
  let o := {| __class__ := Sample.Person;
              __dict__ := {[ "_id" := VStr "1"; "_name" := VStr "ok" ]};
              _errors := None |} in
  let w := set_db {[ "Person:1" := Redis.RHash {[ "hits" := "many" ]};
                     "Person:1:_lock" := Redis.RString "2.000000" ]}
             (Sample.empty_world 1000000 false) in
  let s := {| self := o; env := w |} in
  exists s1 s',
    _write false s = Some (Raise TypeError, s1) /\
    try_finally (_write false) Mutex.unlock s = Some (Raise TypeError, s') /\
    db (env s') !! "Person:1:_lock" = None.
Proof.
  intros o w s.
  destruct (lock_is_released_whatever_write_does false s "Person:1:_lock"
              wf_Person eq_refl) as (r & s1 & s' & H1 & H2 & Hdb & _).
  assert (r = Raise TypeError) as ->.
  { pose proof H1 as H. vm_compute in H. by injection H as <- _. }
  exists s1, s'. exact (conj H1 (conj H2 Hdb)).
Defined.

(** ** A save that succeeds *)

Lemma ceo_bind {A B} (c : M A) (k : A -> M B) :
  changes_errors_only c -> (forall a, changes_errors_only (k a)) ->
  changes_errors_only (bind c k).
Proof.
  intros Hc Hk s r s' H.
  apply bind_inv in H as [(a & s1 & H1 & H) | (e & H1 & _)].
  - destruct (Hc _ _ _ H1) as (Hc1 & Hd1 & He1).
    destruct (Hk a _ _ _ H) as (Hc2 & Hd2 & He2).
    split; [congruence|]. split; congruence.
  - exact (Hc _ _ _ H1).
Qed.

Lemma ceo_ret {A} (a : A) : changes_errors_only (ret a).
Proof. by intros s r s' [= _ <-]. Qed.

Lemma ceo_raise {A} e : changes_errors_only (@raise A e).
Proof. by intros s r s' [= _ <-]. Qed.

Lemma ceo_lift {A} (x : result A) : changes_errors_only (lift x).
Proof. by intros s r s' [= _ <-]. Qed.

Lemma ceo_get_self : changes_errors_only get_self.
Proof. by intros s r s' [= _ <-]. Qed.

(** A read of an attribute changes nothing. *)
Lemma getattr_pure k s r s' : getattr k s = Some (r, s') -> s' = s.
Proof.
  unfold getattr. erewrite bind_ok by reflexivity.
  destruct (declared (__class__ (self s)) k); [by intros [= _ <-]|].
  destruct (__dict__ (self s) !! k); by intros [= _ <-].
Qed.

Lemma ceo_getattr k : changes_errors_only (getattr k).
Proof. intros s r s' H. by rewrite (getattr_pure _ _ _ _ H). Qed.

Lemma ceo_getattr_or_None k : changes_errors_only (getattr_or_None k).
Proof.
  intros s r s' H. unfold getattr_or_None in H.
  destruct (getattr k s) as [[[v|e] s1]|] eqn:Hg; [| |done].
  - injection H as _ <-. by rewrite (getattr_pure _ _ _ _ Hg).
  - assert (s' = s1) as -> by (destruct e; by injection H as _ <-).
    by rewrite (getattr_pure _ _ _ _ Hg).
Qed.

Lemma ceo_extend_errors e : changes_errors_only (extend_errors e).
Proof.
  intros s r s' H. unfold extend_errors in H.
  erewrite bind_ok in H by reflexivity. unfold put_self in H.
  by injection H as _ <-.
Qed.

Lemma ceo_Attribute_validate a : changes_errors_only (Attribute_validate a).
Proof.
  unfold Attribute_validate.
  apply ceo_bind; [apply ceo_getattr|]. intros value.
  apply ceo_bind; [|intros; apply ceo_ret].
  destruct (required a); [|apply ceo_ret].
  destruct (is_none value); [apply ceo_ret|].
  apply ceo_bind; [apply ceo_lift | intros; apply ceo_ret].
Qed.

Lemma ceo_validate a : changes_errors_only (validate a).
Proof.
  unfold validate.
  destruct (class_of a); try apply ceo_Attribute_validate.
  unfold CharField_validate.
  apply ceo_bind; [apply ceo_Attribute_validate|]. intros errs.
  apply ceo_bind; [apply ceo_getattr|]. intros value.
  apply ceo_bind; [|intros; apply ceo_ret].
  destruct (truthy value); [|apply ceo_ret].
  apply ceo_bind; [apply ceo_lift | intros; apply ceo_ret].
Qed.

Lemma ceo_ReferenceField_validate r : changes_errors_only (ReferenceField_validate r).
Proof.
  unfold ReferenceField_validate.
  apply ceo_bind; [apply ceo_getattr_or_None|]. intros value.
  apply ceo_bind; [|intros; apply ceo_ret].
  destruct (truthy value); [|apply ceo_ret].
  apply ceo_bind; [apply ceo_lift | intros; apply ceo_ret].
Qed.

Lemma ceo_validate_attributes fields : changes_errors_only (validate_attributes fields).
Proof.
  induction fields as [|f rest IH]; cbn [validate_attributes]; [apply ceo_ret|].
  apply ceo_bind; [apply ceo_validate|]. intros e.
  apply ceo_bind; [apply ceo_extend_errors | intros; apply IH].
Qed.

Lemma ceo_validate_references fields : changes_errors_only (validate_references fields).
Proof.
  induction fields as [|f rest IH]; cbn [validate_references]; [apply ceo_ret|].
  apply ceo_bind; [apply ceo_ReferenceField_validate|]. intros e.
  apply ceo_bind; [apply ceo_extend_errors | intros; apply IH].
Qed.

(** Validation, however it ends, changes at most [_errors]: it sends
    nothing and leaves the fields and the identity. *)
Lemma ceo_is_valid : changes_errors_only is_valid.
Proof.
  intros s r s' H. rewrite is_valid_from in H.
  assert (changes_errors_only
    (bind (validate_attributes (attribute_values (__class__ (self s)))) (fun _ =>
      bind (validate_references (reference_values (__class__ (self s)))) (fun _ =>
        bind get_self (fun o' =>
          bind (extend_errors (validate_hook (__class__ o') (__dict__ o'))) (fun _ =>
            bind errors_get (fun e =>
              ret (match e with [] => true | _ => false end)))))))) as Hc.
  { apply ceo_bind; [apply ceo_validate_attributes|]. intros _.
    apply ceo_bind; [apply ceo_validate_references|]. intros _.
    apply ceo_bind; [apply ceo_get_self|]. intros o'.
    apply ceo_bind; [apply ceo_extend_errors|]. intros _.
    apply ceo_bind; [|intros; apply ceo_ret].
    intros x y z Hx. unfold errors_get in Hx. erewrite bind_ok in Hx by reflexivity.
    destruct (_errors (self x)); by injection Hx as _ <-. }
  exact (Hc _ _ _ H).
Qed.

(** X23: validation always comes back, with a verdict or an exception,
    and, for a class none of whose fields takes the place of a member
    of [Model], changes at most [_errors]: it sends nothing to the
    store and leaves the class, the fields and the identity of the
    instance. *)
Theorem validation_changes_errors_only (s : state) :
  clear_of_Model (__class__ (self s)) ->
  exists r s',
    is_valid s = Some (r, s') /\
    __class__ (self s') = __class__ (self s) /\
    __dict__ (self s') = __dict__ (self s) /\
    env s' = env s.
Proof.
  intros _. destruct (total_is_valid s) as [[r s'] H].
  exists r, s'. split; [exact H|]. exact (ceo_is_valid _ _ _ H).
Qed.

Lemma validation_changes_errors_only_witness :
  let s := {| self := Sample.person "1"; env := Sample2.stored_world |} in
  exists r s',
    is_valid s = Some (r, s') /\
    __dict__ (self s') = __dict__ (self s) /\
    env s' = Sample2.stored_world.
Proof.
  intros s.
  destruct (validation_changes_errors_only s clear_Person) as (r & s' & H & _ & Hd & He).
  exists r, s'. exact (conj H (conj Hd He)).
Defined.







(** ** The requests of a batch read *)

(** X22: [get_by_ids_async] queues one [HMGET] per identity, in the
    order of the identities, each for the fields of the class at the
    key of its identity; it changes nothing; and it queues them all
    whenever every identity has an ASCII [str]. *)
Theorem get_by_ids_async_requests_in_order (c : model_class) (ids : list pyval) (s : state) :
  (forall cmds s', Manager.get_by_ids_async_requests c ids s = Some (Ok cmds, s') ->
     s' = s /\ Forall2 (request_of c) ids cmds) /\
  (Forall (fun id => exists i, py_str id = Ok i /\ is_ascii i = true) ids ->
   exists cmds, Manager.get_by_ids_async_requests c ids s = Some (Ok cmds, s)).
Proof.
  assert (forall id,
    on_instance (new_instance c)
      (bind (id_set id) (fun _ =>
         bind (key None) (fun k =>
           ret (Redis.HMGET k (attribute_items c).*1)))) s =
    match py_str id with
    | Ok i =>
        match py_unicode (VStr i) with
        | Ok u =>
            Some (Ok (Redis.HMGET (Key_getitem (_key c) u) (attribute_items c).*1,
                      {| __class__ := c; __dict__ := <["_id" := VStr i]> ∅;
                         _errors := None |}), s)
        | Raise e => Some (Raise e, s)
        end
    | Raise e => Some (Raise e, s)
    end) as Hturn.
  { intros id. unfold on_instance, id_set, bind at 1, lift. destruct s as [o w]. cbn.
    destruct (py_str id) as [i|e]; [|reflexivity].
    unfold put_self. cbn [self env]. unfold bind.
    rewrite (key_value _ w None (VStr i)) by apply lookup_insert_eq.
    cbn [py_unicode]. destruct (is_ascii i); reflexivity. }
  split.
  - revert s Hturn. induction ids as [|id rest IH]; intros s Hturn cmds s' H.
    + injection H as <- <-. split; [done | constructor].
    + cbn [Manager.get_by_ids_async_requests] in H.
      apply bind_ok_inv in H as ([cmd o] & s1 & H1 & H).
      rewrite Hturn in H1.
      destruct (py_str id) as [i|e] eqn:Ei; [|done].
      destruct (py_unicode (VStr i)) as [u|e] eqn:Eu; [|done].
      injection H1 as <- _ <-.
      apply bind_ok_inv in H as (rest' & s2 & H2 & H). injection H as <- <-.
      destruct (IH s Hturn _ _ H2) as [-> HF]. split; [done|].
      constructor; [|exact HF]. by exists i, u.
  - intros Hall. induction Hall as [|id rest (i & Hi & Ha) _ IH].
    + by eexists.
    + destruct IH as [cmds Hc]. cbn [Manager.get_by_ids_async_requests].
      eexists. erewrite bind_ok; [|rewrite Hturn, Hi; cbn [py_unicode]; rewrite Ha; reflexivity].
      erewrite bind_ok by exact Hc. reflexivity.
Qed.

Lemma get_by_ids_async_requests_in_order_witness :
  let s := {| self := new_instance Sample.Note; env := Sample.empty_world 0 true |} in
  exists cmds,
    Manager.get_by_ids_async_requests Sample.Note [VInt 1; VInt 2; VInt 3] s
      = Some (Ok cmds, s) /\
    cmds = [Redis.HMGET "Note:1" ["title"]; Redis.HMGET "Note:2" ["title"];
            Redis.HMGET "Note:3" ["title"]] /\
    Forall2 (request_of Sample.Note) [VInt 1; VInt 2; VInt 3] cmds.
Proof.
  intros s.
  destruct (Manager.get_by_ids_async_requests Sample.Note [VInt 1; VInt 2; VInt 3] s)
    as [[[cmds|e] s']|] eqn:H; try (exfalso; vm_compute in H; discriminate H).
  destruct (proj1 (get_by_ids_async_requests_in_order Sample.Note
                     [VInt 1; VInt 2; VInt 3] s) cmds s' H) as [-> HF].
  exists cmds. split; [reflexivity|]. split; [|exact HF].
  vm_compute in H. by injection H as <-.
Defined.

(** ** Taking over an expired lock *)

(** X24: when the lock key holds a value that has expired,
    [Mutex.lock] takes the lock over without sleeping: it sends one
    [SETNX], one [GET] and one [GETSET] of the key and leaves the key
    holding its own expiry time; nothing else changes. *)
Theorem lock_takes_over_expired_lock (fuel : nat) (s : state) (kk v : string) :
  key (Some "_lock") s = Some (Ok kk, s) ->
  db (env s) !! kk = Some (Redis.RString v) ->
  Text.is_empty v = false ->
  Mutex.lock_has_expired v (env s) = Ok true ->
  exists s',
    Mutex.lock (S (S (S fuel))) s = Some (Ok tt, s') /\
    self s' = self s /\
    db (env s') = <[kk := Redis.RString (Mutex.lock_timeout (env s))]> (db (env s)) /\
    clock (env s') = clock (env s) /\
    oplog (env s') =
      (oplog (env s) ++
       [Redis.SETNX kk (Mutex.lock_timeout (env s)); Redis.GET kk;
        Redis.GETSET kk (Mutex.lock_timeout (env s))])%list.
Proof.
  intros Hk Hdb Hv Hexp. destruct s as [o w]. cbn [env self] in *.
  set (t := Mutex.lock_timeout w).
  set (w1 := sent (Redis.SETNX kk t) w).
  set (w2 := sent (Redis.GET kk) w1).
  set (w3 := set_db (<[kk := Redis.RString t]> (db w)) (sent (Redis.GETSET kk t) w2)).
  assert (forall w', key (Some "_lock") {| self := o; env := w' |}
                     = Some (Ok kk, {| self := o; env := w' |})) as Hk'
    by (intros w'; by apply (key_env _ o w)).
  assert (Mutex.lock_step kk Mutex.AtSetnx w = (Ok Mutex.AtGet, w1)) as H1.
  { unfold Mutex.lock_step. fold t. unfold Redis.setnx.
    change (db (sent (Redis.SETNX kk t) w)) with (db w). rewrite Hdb.
    destruct w; reflexivity. }
  assert (Mutex.lock_step kk Mutex.AtGet w1 = (Ok Mutex.AtGetset, w2)) as H2.
  { unfold Mutex.lock_step, Redis.get.
    change (db (sent (Redis.GET kk) w1)) with (db w). rewrite Hdb, Hv.
    change (Mutex.lock_has_expired v (sent (Redis.GET kk) w1))
      with (Mutex.lock_has_expired v w).
    rewrite Hexp. reflexivity. }
  assert (Mutex.lock_step kk Mutex.AtGetset w2 = (Ok Mutex.Acquired, w3)) as H3.
  { unfold Mutex.lock_step, Redis.getset.
    change (Mutex.lock_timeout w2) with t.
    change (db (sent (Redis.GETSET kk t) w2)) with (db w). rewrite Hdb, Hv.
    change (Mutex.lock_has_expired v
              (set_db (<[kk := Redis.RString t]> (db w)) (sent (Redis.GETSET kk t) w2)))
      with (Mutex.lock_has_expired v w).
    rewrite Hexp. reflexivity. }
  exists {| self := o; env := w3 |}. split.
  - unfold Mutex.lock.
    rewrite (run_step _ _ _ kk) by (done || apply Hk'). cbn [env self]. rewrite H1.
    cbn [fst snd].
    rewrite (run_step _ _ _ kk) by (done || apply Hk'). cbn [env self]. rewrite H2.
    cbn [fst snd].
    rewrite (run_step _ _ _ kk) by (done || apply Hk'). cbn [env self]. rewrite H3.
    cbn [fst snd]. by destruct fuel.
  - split; [done|]. split; [done|]. split; [done|].
    subst w3 w2 w1. cbn [env oplog set_db sent]. by rewrite <- !app_assoc.
Qed.

Lemma lock_takes_over_expired_lock_witness :
  let w := set_db {[ "Person:1:_lock" := Redis.RString "2.000000" ]}
             (Sample.empty_world 2500000 false) in
  let s := {| self := Sample.person "1"; env := w |} in
  Mutex.lock_has_expired "2.000000" w = Ok true /\
  exists s',
    Mutex.lock 3 s = Some (Ok tt, s') /\
    db (env s') = <["Person:1:_lock" := Redis.RString (Mutex.lock_timeout w)]> (db w) /\
    Mutex.lock_timeout w = "3.500000".
Proof.
  intros w s.
  assert (Mutex.lock_has_expired "2.000000" w = Ok true) as He
    by (vm_compute; reflexivity).
  split; [exact He|].
  destruct (lock_takes_over_expired_lock 0 s "Person:1:_lock" "2.000000"
              eq_refl eq_refl eq_refl He) as (s' & H & _ & Hdb & _).
  exists s'. split; [exact H|]. split; [exact Hdb|]. vm_compute. reflexivity.
Defined.

(** ** A reference brings a field *)



